(** * fiber-go client: codec, request/response correlation, subscriptions

    A shallow embedding of the Go client of the Fiber network
    ([client.go] and its later revision with persistent streams) and the
    properties of its specification that were checked against it.

    Layout: the Go runtime notions the code relies on ([Go]), the
    go-ethereum value types it consumes ([GoEth]), the wire message and the
    two codec functions ([Codec]), the client record ([ClientModel]), [Connect] ([Connection]), the send
    operations over a persistent stream ([Correlator]) and the subscription
    loops ([Subscription]); then the predicates the properties are stated
    with and the concrete values of the examples.  Definitions come first,
    properties after. *)

From Stdlib Require Import String ZArith NArith List Bool Lia.
From Stdlib.Strings Require Import Byte.
Import ListNotations.

Open Scope Z_scope.

(* ===================================================================== *)
(** * Part I: definitions                                                 *)
(* ===================================================================== *)

(** ** Go runtime: panics, errors, integer conversions, math/big *)

Module Go.

(** Run-time panics the modelled code can raise. *)
Inductive panic :=
| IndexOutOfRange (index : Z) (len : Z)
| SliceToArrayTooShort (len : Z) (want : Z)
| NilDereference.

(** A call either returns or panics. *)
Inductive outcome (A : Type) :=
| Return (a : A)
| Panic (p : panic).
Arguments Return {A} a.
Arguments Panic {A} p.

(** Go [error] values.  [Wrapped msg e] is [fmt.Errorf(msg ++ ": %w", e)];
    the three [Err...] values are go-ethereum's signer errors, [EOF] is
    [io.EOF] and [Status c] a gRPC status error with code [c]. *)
Inductive error :=
| ErrInvalidChainId
| ErrInvalidSig
| ErrTxTypeNotSupported
| EOF
| Status (code : Z)
| Wrapped (msg : string) (e : error).

(** [[]byte]: a nil slice and an empty slice both have length 0 and are
    the same bytes on the wire; both are [[]]. *)
Definition bytes := list byte.

Definition len {A} (l : list A) : Z := Z.of_nat (length l).

(** Conversions between fixed-width integers, wrap-around written out. *)
Definition uint64 (z : Z) : Z := z mod 2 ^ 64.
Definition uint32 (z : Z) : Z := z mod 2 ^ 32.
Definition int64 (z : Z) : Z :=
  let u := z mod 2 ^ 64 in if u <? 2 ^ 63 then u else u - 2 ^ 64.

(** [math/big]: a [*big.Int] is an integer of arbitrary size. *)
Definition big_NewInt (i : Z) : Z := i.

(** [x.Uint64()]: the low 64 bits of the magnitude of [x]. *)
Definition big_Uint64 (x : Z) : Z := Z.abs x mod 2 ^ 64.

(** [x.BitLen()]: the length of the magnitude of [x] in bits, 0 for 0. *)
Definition big_BitLen (x : Z) : Z :=
  if x =? 0 then 0 else Z.log2 (Z.abs x) + 1.

Definition byte_of_N (n : N) : byte :=
  match Byte.of_N n with Some b => b | None => x00 end.

(** Base-256 digits of [n], least significant first, no trailing zero. *)
Fixpoint le_digits (fuel : nat) (n : N) : bytes :=
  match fuel with
  | O => []
  | S fuel' =>
      if N.eqb n 0 then []
      else byte_of_N (n mod 256) :: le_digits fuel' (n / 256)
  end.

(** The number a little-endian digit list stands for. *)
Definition le_value (l : bytes) : N :=
  fold_right (fun b acc => (acc * 256 + Byte.to_N b)%N) 0%N l.

(** [x.Bytes()]: the magnitude of [x] as a big-endian byte slice without
    leading zeros (the empty slice for 0). *)
Definition big_Bytes (x : Z) : bytes :=
  let n := Z.abs_N x in rev (le_digits (N.to_nat (N.size n)) n).

(** [new(big.Int).SetBytes(buf)]: [buf] read as a big-endian unsigned
    integer. *)
Definition big_SetBytes (buf : bytes) : Z :=
  Z.of_N (fold_left (fun acc b => (acc * 256 + Byte.to_N b)%N) buf 0%N).

End Go.

(** ** go-ethereum: addresses, the three transaction shapes, accessors *)

Module GoEth.
Import Go.

(** [common.Address] is [[20]byte]; the model keeps the bytes and states
    the length where it matters ([valid_address]). *)
Definition AddressLength : Z := 20.
Definition Address := bytes.
Definition valid_address (a : Address) : Prop := len a = AddressLength.

(** [new(common.Address)], the all-zero address. *)
Definition zero_address : Address := repeat x00 20.

Record AccessTuple := { Address_ : Address; StorageKeys : list bytes }.
Definition AccessList_t := list AccessTuple.

Module LegacyTx.
Record t := {
  Nonce : Z; GasPrice : Z; Gas : Z; To : option Address;
  Value : Z; Data : bytes; V : Z; R : Z; S : Z }.
End LegacyTx.

Module AccessListTx.
Record t := {
  ChainID : Z; Nonce : Z; GasPrice : Z; Gas : Z; To : option Address;
  Value : Z; Data : bytes; AccessList : AccessList_t;
  V : Z; R : Z; S : Z }.
End AccessListTx.

Module DynamicFeeTx.
Record t := {
  ChainID : Z; Nonce : Z; GasTipCap : Z; GasFeeCap : Z; Gas : Z;
  To : option Address; Value : Z; Data : bytes;
  AccessList : AccessList_t; V : Z; R : Z; S : Z }.
End DynamicFeeTx.

(** [types.TxData], the inner value of a [types.Transaction]. *)
Inductive TxData :=
| Legacy (x : LegacyTx.t)
| AccessList (x : AccessListTx.t)
| DynamicFee (x : DynamicFeeTx.t).

Definition Transaction := TxData.

(** [types.NewTx(inner)] stores a copy of [inner]. *)
Definition NewTx (inner : TxData) : Transaction := inner.

Definition LegacyTxType : Z := 0.
Definition AccessListTxType : Z := 1.
Definition DynamicFeeTxType : Z := 2.

Definition Type_ (tx : Transaction) : Z :=
  match tx with
  | Legacy _ => LegacyTxType
  | AccessList _ => AccessListTxType
  | DynamicFee _ => DynamicFeeTxType
  end.

(** [deriveChainId]: the chain id a legacy signature value [v] encodes. *)
Definition deriveChainId (v : Z) : Z :=
  if big_BitLen v <=? 64 then
    let v64 := big_Uint64 v in
    if (v64 =? 27) || (v64 =? 28) then 0 else uint64 (v64 - 35) / 2
  else (v - 35) / 2.

Definition ChainId (tx : Transaction) : Z :=
  match tx with
  | Legacy x => deriveChainId (LegacyTx.V x)
  | AccessList x => AccessListTx.ChainID x
  | DynamicFee x => DynamicFeeTx.ChainID x
  end.

Definition Nonce (tx : Transaction) : Z :=
  match tx with
  | Legacy x => LegacyTx.Nonce x
  | AccessList x => AccessListTx.Nonce x
  | DynamicFee x => DynamicFeeTx.Nonce x
  end.

Definition Gas (tx : Transaction) : Z :=
  match tx with
  | Legacy x => LegacyTx.Gas x
  | AccessList x => AccessListTx.Gas x
  | DynamicFee x => DynamicFeeTx.Gas x
  end.

(** For a dynamic-fee transaction [GasPrice()] is the fee cap; for the
    other two shapes [GasFeeCap()] and [GasTipCap()] are the gas price. *)
Definition GasPrice (tx : Transaction) : Z :=
  match tx with
  | Legacy x => LegacyTx.GasPrice x
  | AccessList x => AccessListTx.GasPrice x
  | DynamicFee x => DynamicFeeTx.GasFeeCap x
  end.

Definition GasFeeCap (tx : Transaction) : Z :=
  match tx with
  | Legacy x => LegacyTx.GasPrice x
  | AccessList x => AccessListTx.GasPrice x
  | DynamicFee x => DynamicFeeTx.GasFeeCap x
  end.

Definition GasTipCap (tx : Transaction) : Z :=
  match tx with
  | Legacy x => LegacyTx.GasPrice x
  | AccessList x => AccessListTx.GasPrice x
  | DynamicFee x => DynamicFeeTx.GasTipCap x
  end.

Definition To (tx : Transaction) : option Address :=
  match tx with
  | Legacy x => LegacyTx.To x
  | AccessList x => AccessListTx.To x
  | DynamicFee x => DynamicFeeTx.To x
  end.

Definition Value (tx : Transaction) : Z :=
  match tx with
  | Legacy x => LegacyTx.Value x
  | AccessList x => AccessListTx.Value x
  | DynamicFee x => DynamicFeeTx.Value x
  end.

Definition Data (tx : Transaction) : bytes :=
  match tx with
  | Legacy x => LegacyTx.Data x
  | AccessList x => AccessListTx.Data x
  | DynamicFee x => DynamicFeeTx.Data x
  end.

Definition RawSignatureValues (tx : Transaction) : Z * Z * Z :=
  match tx with
  | Legacy x => (LegacyTx.V x, LegacyTx.R x, LegacyTx.S x)
  | AccessList x => (AccessListTx.V x, AccessListTx.R x, AccessListTx.S x)
  | DynamicFee x => (DynamicFeeTx.V x, DynamicFeeTx.R x, DynamicFeeTx.S x)
  end.

(** The access list a transaction carries (none for a legacy one). *)
Definition AccessList_of (tx : Transaction) : AccessList_t :=
  match tx with
  | Legacy _ => []
  | AccessList x => AccessListTx.AccessList x
  | DynamicFee x => DynamicFeeTx.AccessList x
  end.

(** A signer, as built by [types.NewLondonSigner(chainId)]. *)
Inductive Signer := NewLondonSigner (chainId : Z).

Definition signer_chainId (s : Signer) : Z :=
  match s with NewLondonSigner c => c end.

(** go-ethereum's London signer, [londonSigner.Sender] with the
    [eip2930Signer] and Homestead cases it falls back to.  The elliptic
    curve recovery [recoverPlain sighash r s v] stays a parameter. *)
Section LondonSigner.
Variable sigHash : Signer -> Transaction -> bytes.
Variable recoverPlain : bytes -> Z -> Z -> Z -> Address + error.

Definition isProtectedV (v : Z) : bool :=
  if big_BitLen v <=? 8 then
    let v64 := big_Uint64 v in
    negb ((v64 =? 27) || (v64 =? 28) || (v64 =? 1) || (v64 =? 0))
  else true.

Definition Protected (tx : Transaction) : bool :=
  match tx with
  | Legacy x => isProtectedV (LegacyTx.V x)
  | _ => true
  end.

Definition london_Sender (s : Signer) (tx : Transaction) : Address + error :=
  let '(v, r, s_) := RawSignatureValues tx in
  match tx with
  | DynamicFee _ | AccessList _ =>
      let v' := v + 27 in
      if negb (ChainId tx =? signer_chainId s) then inr ErrInvalidChainId
      else recoverPlain (sigHash s tx) r s_ v'
  | Legacy _ =>
      if negb (Protected tx) then recoverPlain (sigHash s tx) r s_ v
      else
        let v' := v - signer_chainId s * 2 - 8 in
        if negb (ChainId tx =? signer_chainId s) then inr ErrInvalidChainId
        else recoverPlain (sigHash s tx) r s_ v'
  end.
End LondonSigner.

End GoEth.

(** ** The codec of [client.go]: [TxToProto] and [ProtoToTx] *)

Module Codec.
Import Go GoEth.

(** [eth.Transaction], the protobuf message: the integer fields are
    unsigned of the width the conversions in the code fix ([uint32] for
    [ChainId] and [Type], [uint64] for the others), the rest byte
    slices. *)
Module eth.
Record Transaction := {
  ChainId : Z; To : bytes; Gas : Z; GasPrice : Z; MaxFee : Z;
  PriorityFee : Z; Hash : bytes; Input : bytes; Nonce : Z;
  Value : bytes; From : bytes; Type_ : Z; V : Z; R : bytes; S : bytes }.
End eth.

Section WithGoEthereum.
(** [types.Sender(signer, tx)] and [tx.Hash()] are go-ethereum's. *)
Variable Sender : Signer -> GoEth.Transaction -> Address + error.
Variable Hash : GoEth.Transaction -> bytes.

Definition TxToProto (tx : GoEth.Transaction) : eth.Transaction + error :=
  let signer := NewLondonSigner 1 in
  match Sender signer tx with
  | inr err => inr err
  | inl sender =>
      let to := match GoEth.To tx with
                | Some a => a
                | None => []
                end in
      let '(v, r, s) := RawSignatureValues tx in
      inl {| eth.ChainId := uint32 (big_Uint64 (GoEth.ChainId tx));
             eth.To := to;
             eth.Gas := GoEth.Gas tx;
             eth.GasPrice := big_Uint64 (GoEth.GasPrice tx);
             eth.MaxFee := big_Uint64 (GoEth.GasFeeCap tx);
             eth.PriorityFee := big_Uint64 (GoEth.GasTipCap tx);
             eth.Hash := Hash tx;
             eth.Input := GoEth.Data tx;
             eth.Nonce := GoEth.Nonce tx;
             eth.Value := big_Bytes (GoEth.Value tx);
             eth.From := sender;
             eth.Type_ := uint32 (GoEth.Type_ tx);
             eth.V := big_Uint64 v;
             eth.R := big_Bytes r;
             eth.S := big_Bytes s |}
  end.
End WithGoEthereum.

(** The conversion of the slice [b] to a pointer to [common.Address]
    (an array of 20 bytes): it panics when the slice is shorter than the
    array and otherwise points at the first 20 bytes. *)
Definition slice_to_Address (b : bytes) : outcome Address :=
  if len b <? AddressLength then Panic (SliceToArrayTooShort (len b) AddressLength)
  else Return (firstn 20 b).

(** [ProtoToTx]: [None] is the [nil] it returns for an unknown type. *)
Definition ProtoToTx (proto : eth.Transaction) : outcome (option GoEth.Transaction) :=
  let to0 := zero_address in
  let to_ := if 0 <? len (eth.To proto)
             then slice_to_Address (eth.To proto)
             else Return to0 in
  match to_ with
  | Panic p => Panic p
  | Return to =>
      match eth.Type_ proto with
      | 0 => Return (Some (NewTx (Legacy {|
               LegacyTx.Nonce := eth.Nonce proto;
               LegacyTx.GasPrice := big_NewInt (int64 (eth.GasPrice proto));
               LegacyTx.Gas := eth.Gas proto;
               LegacyTx.To := Some to;
               LegacyTx.Value := big_SetBytes (eth.Value proto);
               LegacyTx.Data := eth.Input proto;
               LegacyTx.V := big_NewInt (int64 (eth.V proto));
               LegacyTx.R := big_SetBytes (eth.R proto);
               LegacyTx.S := big_SetBytes (eth.S proto) |})))
      | 1 => Return (Some (NewTx (AccessList {|
               AccessListTx.ChainID := big_NewInt (int64 (eth.ChainId proto));
               AccessListTx.Nonce := eth.Nonce proto;
               AccessListTx.GasPrice := big_NewInt (int64 (eth.GasPrice proto));
               AccessListTx.Gas := eth.Gas proto;
               AccessListTx.To := Some to;
               AccessListTx.Value := big_SetBytes (eth.Value proto);
               AccessListTx.Data := eth.Input proto;
               AccessListTx.AccessList := [];
               AccessListTx.V := big_NewInt (int64 (eth.V proto));
               AccessListTx.R := big_SetBytes (eth.R proto);
               AccessListTx.S := big_SetBytes (eth.S proto) |})))
      | 2 => Return (Some (NewTx (DynamicFee {|
               DynamicFeeTx.ChainID := big_NewInt (int64 (eth.ChainId proto));
               DynamicFeeTx.Nonce := eth.Nonce proto;
               DynamicFeeTx.GasTipCap := big_NewInt (int64 (eth.PriorityFee proto));
               DynamicFeeTx.GasFeeCap := big_NewInt (int64 (eth.MaxFee proto));
               DynamicFeeTx.Gas := eth.Gas proto;
               DynamicFeeTx.To := Some to;
               DynamicFeeTx.Value := big_SetBytes (eth.Value proto);
               DynamicFeeTx.Data := eth.Input proto;
               DynamicFeeTx.AccessList := [];
               DynamicFeeTx.V := big_NewInt (int64 (eth.V proto));
               DynamicFeeTx.R := big_SetBytes (eth.R proto);
               DynamicFeeTx.S := big_SetBytes (eth.S proto) |})))
      | _ => Return None
      end
  end.

End Codec.

(** ** The client with persistent streams *)

Module ClientModel.
Import Go Codec.

(** The messages of the [api] package the code builds and reads. *)
Module api.
Record TransactionResponse := { Hash : string; Timestamp : Z }.
Record RawTxMsg := { RawTx : bytes }.
Record TxSequenceMsg := { Sequence : list eth.Transaction }.
Record RawTxSequenceMsg := { RawTxs : list bytes }.
Record TxSequenceResponse :=
  { SequenceResponse : list TransactionResponse }.
Record TxFilter := { Encoded : bytes }.
End api.

(** A bidirectional stream as one call sees it: what [Send] answers for
    a message, and what the next [Recv] yields ([None]: it blocks for
    ever). *)
Record Stream (Req Resp : Type) := {
  Send : Req -> option error;
  Recv : option (Resp + error) }.
Arguments Send {Req Resp} _ _.
Arguments Recv {Req Resp} _.

Record ClientConn := { conn_target : string }.
Record APIClient := { stub_conn : ClientConn }.

Definition TxStream := Stream eth.Transaction api.TransactionResponse.
Definition RawTxStream := Stream api.RawTxMsg api.TransactionResponse.
Definition TxSeqStream := Stream api.TxSequenceMsg api.TxSequenceResponse.
Definition RawTxSeqStream :=
  Stream api.RawTxSequenceMsg api.TxSequenceResponse.

(** [Client]: a [None] field is a [nil] one. *)
Record Client := {
  target : string;
  conn : option ClientConn;
  client : option APIClient;
  key : string;
  txStream : option TxStream;
  rawTxStream : option RawTxStream;
  txSeqStream : option TxSeqStream;
  rawTxSeqStream : option RawTxSeqStream }.

Definition NewClient (target apiKey : string) : Client :=
  {| target := target; conn := None; client := None; key := apiKey;
     txStream := None; rawTxStream := None; txSeqStream := None;
     rawTxSeqStream := None |}.

Definition set_conn (v : ClientConn) (c : Client) : Client :=
  {| target := target c; conn := Some v; client := client c; key := key c;
     txStream := txStream c; rawTxStream := rawTxStream c;
     txSeqStream := txSeqStream c; rawTxSeqStream := rawTxSeqStream c |}.

Definition set_client (v : APIClient) (c : Client) : Client :=
  {| target := target c; conn := conn c; client := Some v; key := key c;
     txStream := txStream c; rawTxStream := rawTxStream c;
     txSeqStream := txSeqStream c; rawTxSeqStream := rawTxSeqStream c |}.

Definition set_txStream (v : option TxStream) (c : Client) : Client :=
  {| target := target c; conn := conn c; client := client c; key := key c;
     txStream := v; rawTxStream := rawTxStream c;
     txSeqStream := txSeqStream c; rawTxSeqStream := rawTxSeqStream c |}.

Definition set_rawTxStream (v : option RawTxStream) (c : Client) : Client :=
  {| target := target c; conn := conn c; client := client c; key := key c;
     txStream := txStream c; rawTxStream := v;
     txSeqStream := txSeqStream c; rawTxSeqStream := rawTxSeqStream c |}.

Definition set_txSeqStream (v : option TxSeqStream) (c : Client) : Client :=
  {| target := target c; conn := conn c; client := client c; key := key c;
     txStream := txStream c; rawTxStream := rawTxStream c;
     txSeqStream := v; rawTxSeqStream := rawTxSeqStream c |}.

Definition set_rawTxSeqStream (v : option RawTxSeqStream) (c : Client)
  : Client :=
  {| target := target c; conn := conn c; client := client c; key := key c;
     txStream := txStream c; rawTxStream := rawTxStream c;
     txSeqStream := txSeqStream c; rawTxSeqStream := v |}.

(** The four transaction classes, one persistent stream each. *)
Inductive StreamClass := TxClass | RawTxClass | TxSeqClass | RawTxSeqClass.

(** The client holds a stream of the class (its field is not [nil]), so
    the send operation of that class can run on it. *)
Definition non_nil {A} (field : option A) : bool :=
  match field with Some _ => true | None => false end.

Definition usable (c : Client) (k : StreamClass) : bool :=
  match k with
  | TxClass => non_nil (txStream c)
  | RawTxClass => non_nil (rawTxStream c)
  | TxSeqClass => non_nil (txSeqStream c)
  | RawTxSeqClass => non_nil (rawTxSeqStream c)
  end.

End ClientModel.

(** ** [Connect] *)

Module Connection.
Import Go Codec ClientModel.

(** What the transport answers during one run of [Connect]: the dial,
    and each of the four stream-opening calls of the stub (given the
    API key sent as metadata).  As in the generated stub, a failed call
    returns a [nil] stream with its error. *)
Record Transport := {
  DialContext : string -> ClientConn + error;
  NewAPIClient : ClientConn -> APIClient;
  open_SendTransaction : string -> TxStream + error;
  open_SendRawTransaction : string -> RawTxStream + error;
  open_SendTransactionSequence : string -> TxSeqStream + error;
  open_SendRawTransactionSequence : string -> RawTxSeqStream + error }.

(** The result of [Connect]: the client as the call leaves it, the
    streams it opened on the transport (in order; [Connect] closes
    none), and the error it returns. *)
Record connected := {
  after : Client;
  opened : list StreamClass;
  err : option error }.

Definition Connect (net : Transport) (c : Client) : connected :=
  match DialContext net (target c) with
  | inr e => {| after := c; opened := []; err := Some e |}
  | inl cn =>
    let c := set_conn cn c in
    let c := set_client (NewAPIClient net cn) c in
    match open_SendTransaction net (key c) with
    | inr e =>
        {| after := set_txStream None c; opened := []; err := Some e |}
    | inl s1 =>
      let c := set_txStream (Some s1) c in
      match open_SendRawTransaction net (key c) with
      | inr e =>
          {| after := set_rawTxStream None c; opened := [TxClass];
             err := Some e |}
      | inl s2 =>
        let c := set_rawTxStream (Some s2) c in
        match open_SendTransactionSequence net (key c) with
        | inr e =>
            {| after := set_txSeqStream None c;
               opened := [TxClass; RawTxClass]; err := Some e |}
        | inl s3 =>
          let c := set_txSeqStream (Some s3) c in
          match open_SendRawTransactionSequence net (key c) with
          | inr e =>
              {| after := set_rawTxSeqStream None c;
                 opened := [TxClass; RawTxClass; TxSeqClass];
                 err := Some e |}
          | inl s4 =>
              {| after := set_rawTxSeqStream (Some s4) c;
                 opened := [TxClass; RawTxClass; TxSeqClass; RawTxSeqClass];
                 err := None |}
          end
        end
      end
    end
  end.

(** Some one of the four stream-opening calls fails in this run. *)
Definition some_stream_fails (net : Transport) (c : Client) : Prop :=
  (exists e, open_SendTransaction net (key c) = inr e) \/
  (exists e, open_SendRawTransaction net (key c) = inr e) \/
  (exists e, open_SendTransactionSequence net (key c) = inr e) \/
  (exists e, open_SendRawTransactionSequence net (key c) = inr e).

End Connection.

(** ** The send operations: one write unit, one read, one [select] *)

Module Correlator.
Import Go GoEth Codec ClientModel.

(** *** One call on a stream

    Every send operation has the same shape after encoding: a goroutine
    runs [stream.Send(msg)] and, when that fails, blocks on the unbuffered
    channel [errc]; the caller runs a [select] with a [default] branch on
    [errc] once and then [stream.Recv()].  Both branches after [Recv]
    return, so the [for] loop body runs once. *)
Section Call.
Context {Req Resp R : Type}.
Variable stream : Stream Req Resp.
Variable msg : Req.
(** What the call returns for an error, and for a received response. *)
Variable on_error : error -> R.
Variable on_response : Resp -> outcome R.

(** The write unit: not yet run, blocked on [errc <- err], or over. *)
Inductive send_unit :=
| SendPending
| SendBlockedOnErrc (e : error)
| SendOver.

(** The caller: at the [select], in [Recv], or returned. *)
Inductive caller :=
| AtSelect
| AtRecv
| Done (o : outcome R).

Record config := { main : caller; unit_ : send_unit }.

Definition initial : config := {| main := AtSelect; unit_ := SendPending |}.

Definition blocked_on_errc (u : send_unit) : bool :=
  match u with SendBlockedOnErrc _ => true | _ => false end.

(** One scheduling step of either execution unit.  A [select] takes
    the [errc] case exactly when a sender is blocked on [errc] at that
    moment, the [default] case otherwise. *)
Inductive step : config -> config -> Prop :=
| step_send_ok m :
    Send stream msg = None ->
    step {| main := m; unit_ := SendPending |}
         {| main := m; unit_ := SendOver |}
| step_send_fail m e :
    Send stream msg = Some e ->
    step {| main := m; unit_ := SendPending |}
         {| main := m; unit_ := SendBlockedOnErrc e |}
| step_select_errc e :
    step {| main := AtSelect; unit_ := SendBlockedOnErrc e |}
         {| main := Done (Return (on_error e)); unit_ := SendOver |}
| step_select_default u :
    blocked_on_errc u = false ->
    step {| main := AtSelect; unit_ := u |}
         {| main := AtRecv; unit_ := u |}
| step_recv_ok u r :
    Recv stream = Some (inl r) ->
    step {| main := AtRecv; unit_ := u |}
         {| main := Done (on_response r); unit_ := u |}
| step_recv_fail u e :
    Recv stream = Some (inr e) ->
    step {| main := AtRecv; unit_ := u |}
         {| main := Done (Return (on_error e)); unit_ := u |}.

Inductive steps : config -> config -> Prop :=
| steps_refl c : steps c c
| steps_cons c1 c2 c3 : step c1 c2 -> steps c2 c3 -> steps c1 c3.

(** The call ends with outcome [o] in some interleaving. *)
Definition call_ends (o : outcome R) : Prop :=
  exists c, steps initial c /\ main c = Done o.

(** The caller entered [Recv] in some interleaving that ends with [o]. *)
Definition call_ends_through_recv (o : outcome R) : Prop :=
  exists u c, steps initial {| main := AtRecv; unit_ := u |} /\
              steps {| main := AtRecv; unit_ := u |} c /\
              main c = Done o.

(** The same call as a function of the one scheduling choice that
    matters: whether the write unit has run before the [select]
    ([send_first]).  [None]: the call never returns. *)
Definition call (send_first : bool) : option (outcome R) :=
  match (if send_first then Send stream msg else None) with
  | Some e => Some (Return (on_error e))
  | None =>
      match Recv stream with
      | None => None
      | Some (inl r) => Some (on_response r)
      | Some (inr e) => Some (Return (on_error e))
      end
  end.

(** What holds of every configuration reached: a unit blocked on
    [errc] holds the error [Send] gave, and a returned caller holds an
    outcome of [call]. *)
Definition sound (c : config) : Prop :=
  (forall e, unit_ c = SendBlockedOnErrc e -> Send stream msg = Some e) /\
  (forall o, main c = Done o -> exists b, call b = Some o).
End Call.

(** *** The four operations *)

Definition single_result : Type := string * Z * option error.
Definition sequence_result : Type := list string * Z * option error.

Definition single_error (e : error) : single_result := (EmptyString, 0, Some e).
Definition single_response (res : api.TransactionResponse)
  : outcome single_result :=
  Return (api.Hash res, api.Timestamp res, None).

Definition sequence_error (e : error) : sequence_result := ([], 0, Some e).

(** The tail of both sequence operations: the hashes of the response's
    items in their order, and the timestamp of the item at index 0, an
    index that panics on an empty collection. *)
Definition sequence_response (res : api.TxSequenceResponse)
  : outcome sequence_result :=
  match api.SequenceResponse res with
  | [] => Panic (IndexOutOfRange 0 0)
  | first :: _ =>
      Return (map api.Hash (api.SequenceResponse res),
              api.Timestamp first, None)
  end.

Section Operations.
Variable Sender : Signer -> GoEth.Transaction -> Address + error.
Variable HashOf : GoEth.Transaction -> bytes.

(** The encoding loop of [SendTransactionSequence]: the first failure
    of [TxToProto] ends it. *)
Fixpoint encode_all (transactions : list GoEth.Transaction)
  : list eth.Transaction + error :=
  match transactions with
  | [] => inl []
  | tx :: rest =>
      match TxToProto Sender HashOf tx with
      | inr e => inr e
      | inl proto =>
          match encode_all rest with
          | inr e => inr e
          | inl protos => inl (proto :: protos)
          end
      end
  end.

(** A method call on a [nil] stream field panics, in the write unit
    and in the caller alike. *)
Definition on_stream {S R} (field : option S)
    (k : S -> option (outcome R)) : option (outcome R) :=
  match field with
  | None => Some (Panic NilDereference)
  | Some s => k s
  end.

(** Each operation takes the scheduling choice of [call] first. *)
Definition SendTransaction (send_first : bool) (c : Client)
    (tx : GoEth.Transaction) : option (outcome single_result) :=
  match TxToProto Sender HashOf tx with
  | inr e =>
      Some (Return (single_error (Wrapped "converting to protobuf" e)))
  | inl proto =>
      on_stream (txStream c) (fun s =>
        call s proto single_error single_response send_first)
  end.

Definition SendRawTransaction (send_first : bool) (c : Client)
    (rawTx : bytes) : option (outcome single_result) :=
  on_stream (rawTxStream c) (fun s =>
    call s {| api.RawTx := rawTx |} single_error single_response
         send_first).

Definition SendTransactionSequence (send_first : bool) (c : Client)
    (transactions : list GoEth.Transaction)
  : option (outcome sequence_result) :=
  match encode_all transactions with
  | inr e => Some (Return (sequence_error e))
  | inl protoSeq =>
      on_stream (txSeqStream c) (fun s =>
        call s {| api.Sequence := protoSeq |} sequence_error
             sequence_response send_first)
  end.

Definition SendRawTransactionSequence (send_first : bool) (c : Client)
    (rawTransactions : list bytes) : option (outcome sequence_result) :=
  on_stream (rawTxSeqStream c) (fun s =>
    call s {| api.RawTxs := rawTransactions |} sequence_error
         sequence_response send_first).
End Operations.

End Correlator.

(** ** Subscriptions: a receive loop feeding the caller's channel *)

Module Subscription.
Import Go Codec ClientModel.

(** A server stream: the answer of its [i]-th call to [Recv]. *)
Record ServerStream (Proto : Type) := { recv : nat -> Proto + error }.
Arguments recv {Proto} _ _.

(** What the subscription does to the delivery channel [ch], in order. *)
Inductive chan_op (Event : Type) :=
| ChSend (v : Event)
| ChClose.
Arguments ChSend {Event} v.
Arguments ChClose {Event}.

(** Where a subscribe call stands: still in its loop, blocked for ever
    on a push nobody receives, returned with an error, or panicked. *)
Inductive status :=
| Running
| BlockedOnPush
| Returned (e : error)
| Panicked (p : panic).

Section Pump.
Context {Proto Event : Type}.
Variable decode : Proto -> Event.
Variable res : ServerStream Proto.
(** [receiver_ready i]: the [i]-th push on [ch] finds a receiver. *)
Variable receiver_ready : nat -> bool.

(** [fuel] iterations of the [for] loop, from its [i]-th iteration on,
    [log] being what was done to [ch] so far. *)
Fixpoint pump (fuel : nat) (i : nat) (log : list (chan_op Event))
  : status * list (chan_op Event) :=
  match fuel with
  | O => (Running, log)
  | S fuel' =>
      match recv res i with
      | inr e => (Returned e, log ++ [ChClose])
      | inl proto =>
          if receiver_ready i
          then pump fuel' (S i) (log ++ [ChSend (decode proto)])
          else (BlockedOnPush, log)
      end
  end.
End Pump.

(** The body every subscribe method shares: the answer [opened] of the
    server-streaming call, the wrapping of its error, then the loop. *)
Definition subscribe {Proto Event : Type} (decode : Proto -> Event)
    (label : string) (opened : ServerStream Proto + error)
    (receiver_ready : nat -> bool) (fuel : nat)
  : status * list (chan_op Event) :=
  match opened with
  | inr e => (Returned (Wrapped label e), [])
  | inl res => pump decode res receiver_ready fuel 0 []
  end.

(** The stub is reached through [c.client]; a [nil] stub panics. *)
Definition with_stub {Event : Type} (c : Client)
    (k : APIClient -> status * list (chan_op Event))
  : status * list (chan_op Event) :=
  match client c with
  | None => (Panicked NilDereference, [])
  | Some stub => k stub
  end.

(** The four kinds.  The message and event types of the kinds, their
    decoders ([ProtoToTx] to the client's own [Transaction],
    [ProtoToHeader], [ProtoToBlock], [ProtoToBeaconBlock]) and the filter
    encoder are declared outside the two files; the server's answers to
    the four streaming calls (given the API key) are [rpc_...]. *)
Section Kinds.
Variables Filter TxEvent : Type.
Variables HeaderMsg Header PayloadMsg Payload BeaconMsg BeaconBlock : Type.
Variable Filter_Encode : Filter -> bytes.
Variable ProtoToTx : eth.Transaction -> TxEvent.
Variable ProtoToHeader : HeaderMsg -> Header.
Variable ProtoToBlock : PayloadMsg -> Payload.
Variable ProtoToBeaconBlock : BeaconMsg -> BeaconBlock.

Variable rpc_SubscribeNewTxs :
  APIClient -> string -> api.TxFilter ->
  ServerStream eth.Transaction + error.
Variable rpc_SubscribeExecutionHeaders :
  APIClient -> string -> ServerStream HeaderMsg + error.
Variable rpc_SubscribeExecutionPayloads :
  APIClient -> string -> ServerStream PayloadMsg + error.
Variable rpc_SubscribeBeaconBlocks :
  APIClient -> string -> ServerStream BeaconMsg + error.

Definition protoFilter_of (filter : option Filter) : api.TxFilter :=
  match filter with
  | Some f => {| api.Encoded := Filter_Encode f |}
  | None => {| api.Encoded := [] |}
  end.

Definition SubscribeNewTxs (c : Client) (filter : option Filter)
    (receiver_ready : nat -> bool) (fuel : nat)
  : status * list (chan_op TxEvent) :=
  let protoFilter := protoFilter_of filter in
  with_stub c (fun stub =>
    subscribe ProtoToTx "subscribing to transactions"
      (rpc_SubscribeNewTxs stub (key c) protoFilter)
      receiver_ready fuel).

Definition SubscribeNewExecutionPayloadHeaders (c : Client)
    (receiver_ready : nat -> bool) (fuel : nat)
  : status * list (chan_op Header) :=
  with_stub c (fun stub =>
    subscribe ProtoToHeader "subscribing to blocks"
      (rpc_SubscribeExecutionHeaders stub (key c)) receiver_ready fuel).

Definition SubscribeNewExecutionPayloads (c : Client)
    (receiver_ready : nat -> bool) (fuel : nat)
  : status * list (chan_op Payload) :=
  with_stub c (fun stub =>
    subscribe ProtoToBlock "subscribing to blocks"
      (rpc_SubscribeExecutionPayloads stub (key c)) receiver_ready fuel).

Definition SubscribeNewBeaconBlocks (c : Client)
    (receiver_ready : nat -> bool) (fuel : nat)
  : status * list (chan_op BeaconBlock) :=
  with_stub c (fun stub =>
    subscribe ProtoToBeaconBlock "subscribing to blocks"
      (rpc_SubscribeBeaconBlocks stub (key c)) receiver_ready fuel).
End Kinds.

(** *** What is said of a channel log *)

Fixpoint count_close {Event} (log : list (chan_op Event)) : nat :=
  match log with
  | [] => O
  | ChClose :: rest => S (count_close rest)
  | ChSend _ :: rest => count_close rest
  end.

Fixpoint count_send {Event} (log : list (chan_op Event)) : nat :=
  match log with
  | [] => O
  | ChClose :: rest => count_send rest
  | ChSend _ :: rest => S (count_send rest)
  end.

(** Some push comes after a close. *)
Fixpoint write_after_close {Event} (log : list (chan_op Event)) : bool :=
  match log with
  | [] => false
  | ChClose :: rest => negb (Nat.eqb (count_send rest) 0) || write_after_close rest
  | ChSend _ :: rest => write_after_close rest
  end.

(** The stream ends at its [n]-th [Recv] with [e]: messages before. *)
Definition ends_at {Proto} (res : ServerStream Proto) (n : nat) (e : error)
  : Prop :=
  recv res n = inr e /\ forall i, (i < n)%nat -> exists m, recv res i = inl m.

(** The pushes of the [k] messages of the stream from its [i]-th on,
    in order; [deliveries] are those of its first [n] messages. *)
Definition deliveries_from {Proto Event} (decode : Proto -> Event)
    (res : ServerStream Proto) (i k : nat) : list (chan_op Event) :=
  flat_map (fun j => match recv res j with
                     | inl m => [ChSend (decode m)]
                     | inr _ => []
                     end) (seq i k).

Definition deliveries {Proto Event} (decode : Proto -> Event)
    (res : ServerStream Proto) (n : nat) : list (chan_op Event) :=
  deliveries_from decode res 0 n.

(** The life cycle of the delivery channel for one subscribe call [run]
    (a function of the receiver and of the number of loop iterations
    observed), given the answer [opened] of its streaming call. *)
Definition channel_lifecycle {Proto Event} (decode : Proto -> Event)
    (label : string) (opened : ServerStream Proto + error)
    (run : (nat -> bool) -> nat -> status * list (chan_op Event)) : Prop :=
  match opened with
  | inr e =>
      forall ready fuel, run ready fuel = (Returned (Wrapped label e), [])
  | inl res =>
      (forall ready fuel,
          (count_close (snd (run ready fuel)) <= 1)%nat /\
          write_after_close (snd (run ready fuel)) = false /\
          (count_close (snd (run ready fuel)) = 1%nat <->
           exists e, fst (run ready fuel) = Returned e) /\
          (forall e, fst (run ready fuel) = Returned e ->
             exists n, ends_at res n e /\
                       snd (run ready fuel) =
                         deliveries decode res n ++ [ChClose]))
      /\
      (forall ready n e,
          ends_at res n e ->
          (forall i, (i < n)%nat -> ready i = true) ->
          forall fuel, (n < fuel)%nat ->
            run ready fuel =
              (Returned e, deliveries decode res n ++ [ChClose]))
  end.

End Subscription.

(** ** What the codec properties are stated with *)

Module CodecSpec.
Import Go GoEth Codec.

(** The magnitudes the wire form carries exactly: a present 20-byte
    recipient, non-negative [Value], [R] and [S] (sent as magnitudes),
    [V] and the gas price or fee fields below [2^63] (sent as [uint64],
    read back through [int64]), a chain id below [2^32]. *)
Definition exact_on_wire (tx : GoEth.Transaction) : Prop :=
  (exists a, GoEth.To tx = Some a /\ valid_address a) /\
  0 <= GoEth.Value tx /\
  (let '(v, r, s) := RawSignatureValues tx in
   0 <= v < 2 ^ 63 /\ 0 <= r /\ 0 <= s) /\
  match tx with
  | Legacy x => 0 <= LegacyTx.GasPrice x < 2 ^ 63
  | AccessList x =>
      0 <= AccessListTx.ChainID x < 2 ^ 32 /\
      0 <= AccessListTx.GasPrice x < 2 ^ 63
  | DynamicFee x =>
      0 <= DynamicFeeTx.ChainID x < 2 ^ 32 /\
      0 <= DynamicFeeTx.GasFeeCap x < 2 ^ 63 /\
      0 <= DynamicFeeTx.GasTipCap x < 2 ^ 63
  end.

(** [tx'] reproduces the fields every type carries. *)
Definition same_common_fields (tx tx' : GoEth.Transaction) : Prop :=
  GoEth.Type_ tx' = GoEth.Type_ tx /\
  GoEth.Nonce tx' = GoEth.Nonce tx /\
  GoEth.Gas tx' = GoEth.Gas tx /\
  GoEth.Value tx' = GoEth.Value tx /\
  GoEth.To tx' = GoEth.To tx /\
  GoEth.Data tx' = GoEth.Data tx /\
  RawSignatureValues tx' = RawSignatureValues tx.

(** [tx'] reproduces the chain id and fee fields the type of [tx]
    carries. *)
Definition same_typed_fields (tx tx' : GoEth.Transaction) : Prop :=
  match tx with
  | Legacy _ => GoEth.GasPrice tx' = GoEth.GasPrice tx
  | AccessList _ =>
      GoEth.ChainId tx' = GoEth.ChainId tx /\
      GoEth.GasPrice tx' = GoEth.GasPrice tx
  | DynamicFee _ =>
      GoEth.ChainId tx' = GoEth.ChainId tx /\
      GoEth.GasFeeCap tx' = GoEth.GasFeeCap tx /\
      GoEth.GasTipCap tx' = GoEth.GasTipCap tx
  end.

(** [tx] without its access list. *)
Definition without_access_list (tx : GoEth.Transaction) : GoEth.Transaction :=
  match tx with
  | Legacy x => Legacy x
  | AccessList x =>
      AccessList {| AccessListTx.ChainID := AccessListTx.ChainID x;
                    AccessListTx.Nonce := AccessListTx.Nonce x;
                    AccessListTx.GasPrice := AccessListTx.GasPrice x;
                    AccessListTx.Gas := AccessListTx.Gas x;
                    AccessListTx.To := AccessListTx.To x;
                    AccessListTx.Value := AccessListTx.Value x;
                    AccessListTx.Data := AccessListTx.Data x;
                    AccessListTx.AccessList := [];
                    AccessListTx.V := AccessListTx.V x;
                    AccessListTx.R := AccessListTx.R x;
                    AccessListTx.S := AccessListTx.S x |}
  | DynamicFee x =>
      DynamicFee {| DynamicFeeTx.ChainID := DynamicFeeTx.ChainID x;
                    DynamicFeeTx.Nonce := DynamicFeeTx.Nonce x;
                    DynamicFeeTx.GasTipCap := DynamicFeeTx.GasTipCap x;
                    DynamicFeeTx.GasFeeCap := DynamicFeeTx.GasFeeCap x;
                    DynamicFeeTx.Gas := DynamicFeeTx.Gas x;
                    DynamicFeeTx.To := DynamicFeeTx.To x;
                    DynamicFeeTx.Value := DynamicFeeTx.Value x;
                    DynamicFeeTx.Data := DynamicFeeTx.Data x;
                    DynamicFeeTx.AccessList := [];
                    DynamicFeeTx.V := DynamicFeeTx.V x;
                    DynamicFeeTx.R := DynamicFeeTx.R x;
                    DynamicFeeTx.S := DynamicFeeTx.S x |}
  end.

(** The type tags [ProtoToTx] knows. *)
Definition known_tag (tag : Z) : bool :=
  (tag =? 0) || (tag =? 1) || (tag =? 2).

End CodecSpec.

(** ** What the property of [Connect] is stated with *)

Module ConnectionSpec.
Import Go ClientModel Connection.

Definition failure {S} (r : S + error) : option error :=
  match r with inl _ => None | inr e => Some e end.

(** The error, if any, of the stream-opening call of a class. *)
Definition open_error (net : Transport) (key : string) (k : StreamClass)
  : option error :=
  match k with
  | TxClass => failure (open_SendTransaction net key)
  | RawTxClass => failure (open_SendRawTransaction net key)
  | TxSeqClass => failure (open_SendTransactionSequence net key)
  | RawTxSeqClass => failure (open_SendRawTransactionSequence net key)
  end.

(** The classes [Connect] opens before, and after, a given one. *)
Definition before (k : StreamClass) : list StreamClass :=
  match k with
  | TxClass => []
  | RawTxClass => [TxClass]
  | TxSeqClass => [TxClass; RawTxClass]
  | RawTxSeqClass => [TxClass; RawTxClass; TxSeqClass]
  end.

Definition later (k : StreamClass) : list StreamClass :=
  match k with
  | TxClass => [RawTxClass; TxSeqClass; RawTxSeqClass]
  | RawTxClass => [TxSeqClass; RawTxSeqClass]
  | TxSeqClass => [RawTxSeqClass]
  | RawTxSeqClass => []
  end.

(** [k] is the first class whose opening fails, with error [e]. *)
Definition first_failure (net : Transport) (key : string)
    (k : StreamClass) (e : error) : Prop :=
  open_error net key k = Some e /\
  forall j, In j (before k) -> open_error net key j = None.

(** The field of class [k] of [c'] holds the stream the transport
    opened for that class. *)
Definition holds_opened (net : Transport) (key : string) (c' : Client)
    (k : StreamClass) : Prop :=
  match k with
  | TxClass =>
      exists s, open_SendTransaction net key = inl s /\
                txStream c' = Some s
  | RawTxClass =>
      exists s, open_SendRawTransaction net key = inl s /\
                rawTxStream c' = Some s
  | TxSeqClass =>
      exists s, open_SendTransactionSequence net key = inl s /\
                txSeqStream c' = Some s
  | RawTxSeqClass =>
      exists s, open_SendRawTransactionSequence net key = inl s /\
                rawTxSeqStream c' = Some s
  end.

(** The field of class [k] is in [c'] what it was in [c]. *)
Definition field_kept (c c' : Client) (k : StreamClass) : Prop :=
  match k with
  | TxClass => txStream c' = txStream c
  | RawTxClass => rawTxStream c' = rawTxStream c
  | TxSeqClass => txSeqStream c' = txSeqStream c
  | RawTxSeqClass => rawTxSeqStream c' = rawTxSeqStream c
  end.

End ConnectionSpec.

(** ** Concrete values used in examples *)

Module Samples.
Import Go GoEth Codec ClientModel.

Definition sample_sender : Address := repeat xaa 20.

(** A stand-in for the elliptic-curve recovery: it keeps the checks of
    go-ethereum's [recoverPlain] on the recovery id ([v] is 27 or 28)
    and on [r] and [s] being positive, and answers one fixed address. *)
Definition sample_recoverPlain (sighash : bytes) (r s v : Z)
  : Address + error :=
  if ((v =? 27) || (v =? 28)) && (0 <? r) && (0 <? s)
  then inl sample_sender else inr ErrInvalidSig.

Definition sample_sigHash (s : Signer) (tx : GoEth.Transaction) : bytes := [].

Definition sample_Sender : Signer -> GoEth.Transaction -> Address + error :=
  london_Sender sample_sigHash sample_recoverPlain.

Definition sample_Hash (tx : GoEth.Transaction) : bytes := [].

Definition sample_recipient : Address := repeat x11 20.

(** The legacy transfer of the specification's scenario, signed for
    chain id 1 ([V] = 37). *)
Definition legacy_transfer : GoEth.Transaction :=
  Legacy {| LegacyTx.Nonce := 5; LegacyTx.GasPrice := 1000000000;
            LegacyTx.Gas := 21000; LegacyTx.To := Some sample_recipient;
            LegacyTx.Value := 10 ^ 18; LegacyTx.Data := [];
            LegacyTx.V := 37; LegacyTx.R := 1; LegacyTx.S := 1 |}.

(** The same transaction as a contract creation: no recipient. *)
Definition contract_creation : GoEth.Transaction :=
  Legacy {| LegacyTx.Nonce := 5; LegacyTx.GasPrice := 1000000000;
            LegacyTx.Gas := 21000; LegacyTx.To := None;
            LegacyTx.Value := 10 ^ 18; LegacyTx.Data := [];
            LegacyTx.V := 37; LegacyTx.R := 1; LegacyTx.S := 1 |}.

(** A dynamic-fee transaction declaring chain id [chain]. *)
Definition dynamic_fee_on (chain : Z) : GoEth.Transaction :=
  DynamicFee {| DynamicFeeTx.ChainID := chain; DynamicFeeTx.Nonce := 7;
                DynamicFeeTx.GasTipCap := 2; DynamicFeeTx.GasFeeCap := 30;
                DynamicFeeTx.Gas := 21000;
                DynamicFeeTx.To := Some sample_recipient;
                DynamicFeeTx.Value := 1; DynamicFeeTx.Data := [];
                DynamicFeeTx.AccessList := [];
                DynamicFeeTx.V := 1; DynamicFeeTx.R := 1;
                DynamicFeeTx.S := 1 |}.

(** A wire transaction with an unknown type tag and a one-byte
    recipient. *)
Definition short_recipient_wire : eth.Transaction :=
  {| eth.ChainId := 1; eth.To := [x01]; eth.Gas := 21000;
     eth.GasPrice := 0; eth.MaxFee := 0; eth.PriorityFee := 0;
     eth.Hash := []; eth.Input := []; eth.Nonce := 0; eth.Value := [];
     eth.From := []; eth.Type_ := 3; eth.V := 0; eth.R := []; eth.S := [] |}.

(** A wire transaction of type [tag] with an empty recipient. *)
Definition empty_recipient_wire (tag : Z) : eth.Transaction :=
  {| eth.ChainId := 1; eth.To := []; eth.Gas := 21000;
     eth.GasPrice := 0; eth.MaxFee := 0; eth.PriorityFee := 0;
     eth.Hash := []; eth.Input := []; eth.Nonce := 0; eth.Value := [];
     eth.From := []; eth.Type_ := tag; eth.V := 0; eth.R := []; eth.S := [] |}.

(** A client that has been given its streams one by one. *)
Definition fresh_client : Client := NewClient "fiber.example:8080" "api-key".

(** Two response items with their own timestamps. *)
Definition item_a : api.TransactionResponse :=
  {| api.Hash := "0xaa"; api.Timestamp := 1700 |}.
Definition item_b : api.TransactionResponse :=
  {| api.Hash := "0xbb"; api.Timestamp := 1701 |}.

(** A raw-sequence stream on which [Send] succeeds and [Recv] yields a
    response of the given items. *)
Definition answering (items : list api.TransactionResponse)
  : RawTxSeqStream :=
  {| Send := fun _ => None;
     Recv := Some (inl {| api.SequenceResponse := items |}) |}.

(** A raw stream on which [Send] fails with [io.EOF] and [Recv] with
    the status error of the broken stream. *)
Definition broken : RawTxStream :=
  {| Send := fun _ => Some EOF; Recv := Some (inr (Status 14)) |}.

Definition blob : bytes := [x02; xf8].

(** A single-transaction stream and a raw stream that answer one hash. *)
Definition tx_stream_ok : TxStream :=
  {| Send := fun _ => None; Recv := Some (inl item_a) |}.
Definition raw_stream_ok : RawTxStream :=
  {| Send := fun _ => None; Recv := Some (inl item_b) |}.

(** A transport on which the dial and the first two streams succeed and
    the transaction-sequence stream fails to open. *)
Definition third_stream_fails : Connection.Transport :=
  {| Connection.DialContext := fun t => inl {| conn_target := t |};
     Connection.NewAPIClient := fun cn => {| stub_conn := cn |};
     Connection.open_SendTransaction := fun _ => inl tx_stream_ok;
     Connection.open_SendRawTransaction := fun _ => inl raw_stream_ok;
     Connection.open_SendTransactionSequence := fun _ => inr (Status 14);
     Connection.open_SendRawTransactionSequence :=
       fun _ => inl (answering [item_a]) |}.

(** A subscription stream: two transactions, then the end of the
    stream. *)
Definition two_then_eof : Subscription.ServerStream eth.Transaction :=
  {| Subscription.recv := fun i =>
       match i with
       | O => inl (empty_recipient_wire 0)
       | S O => inl (empty_recipient_wire 2)
       | _ => inr EOF
       end |}.

(** A server that answers the transaction subscription with that stream,
    and one that refuses a subscription. *)
Definition sample_rpc_txs (stub : APIClient) (key : string)
    (f : api.TxFilter) : Subscription.ServerStream eth.Transaction + error :=
  inl two_then_eof.

Definition sample_rpc_failing (stub : APIClient) (key : string)
  : Subscription.ServerStream Z + error :=
  inr (Status 16).

Definition subscribed_client : Client :=
  set_client {| stub_conn := {| conn_target := "fiber.example:8080" |} |}
             fresh_client.

(** A transport on which the dial and all four streams succeed. *)
Definition all_streams_open : Connection.Transport :=
  {| Connection.DialContext := fun t => inl {| conn_target := t |};
     Connection.NewAPIClient := fun cn => {| stub_conn := cn |};
     Connection.open_SendTransaction := fun _ => inl tx_stream_ok;
     Connection.open_SendRawTransaction := fun _ => inl raw_stream_ok;
     Connection.open_SendTransactionSequence :=
       fun _ => inl {| Send := fun _ => None;
                       Recv := Some (inl {| api.SequenceResponse :=
                                              [item_a] |}) |};
     Connection.open_SendRawTransactionSequence :=
       fun _ => inl (answering [item_a]) |}.

End Samples.

(** ** [Close] *)

Module Closing.
Import Go ClientModel.

(** What [Close] does to the transport, in order, each with the error
    the call answered. *)
Inductive close_event :=
| ClosedSend (k : StreamClass) (result : option error)
| ClosedConn (result : option error).

(** What the transport answers during one run of [Close]: to
    [CloseSend] on the stream of each class, and to [conn.Close]. *)
Record Teardown := {
  CloseSend : StreamClass -> option error;
  conn_Close : option error }.

Definition closed_send (env : Teardown) (k : StreamClass) : close_event :=
  ClosedSend k (CloseSend env k).

(** [Close]: the result of each [CloseSend] is dropped; a method call on
    a [nil] stream, or on a [nil] connection, panics. *)
Definition Close (env : Teardown) (c : Client)
  : list close_event * outcome (option error) :=
  match txStream c with
  | None => ([], Panic NilDereference)
  | Some _ =>
    match rawTxStream c with
    | None => ([closed_send env TxClass], Panic NilDereference)
    | Some _ =>
      match txSeqStream c with
      | None =>
          ([closed_send env TxClass; closed_send env RawTxClass],
           Panic NilDereference)
      | Some _ =>
        match rawTxSeqStream c with
        | None =>
            ([closed_send env TxClass; closed_send env RawTxClass;
              closed_send env TxSeqClass], Panic NilDereference)
        | Some _ =>
          match conn c with
          | None =>
              ([closed_send env TxClass; closed_send env RawTxClass;
                closed_send env TxSeqClass; closed_send env RawTxSeqClass],
               Panic NilDereference)
          | Some _ =>
              ([closed_send env TxClass; closed_send env RawTxClass;
                closed_send env TxSeqClass; closed_send env RawTxSeqClass;
                ClosedConn (conn_Close env)],
               Return (conn_Close env))
          end
        end
      end
    end
  end.

(** The connection was closed in this run. *)
Definition conn_closed (trace : list close_event) : bool :=
  existsb (fun ev => match ev with ClosedConn _ => true | _ => false end)
          trace.

End Closing.

(** ** More of what the codec properties are stated with *)

Module CodecSpecMore.
Import Go GoEth Codec.

(** The big integers of a transaction are non-negative (as they are in
    every transaction read from its encoding) and its recipient, when
    present, is a 20-byte address. *)
Definition signed_values (tx : GoEth.Transaction) : Prop :=
  (forall a, GoEth.To tx = Some a -> valid_address a) /\
  0 <= GoEth.Value tx /\
  (let '(v, r, s) := RawSignatureValues tx in 0 <= v /\ 0 <= r /\ 0 <= s) /\
  match tx with
  | Legacy x => 0 <= LegacyTx.GasPrice x
  | AccessList x =>
      0 <= AccessListTx.ChainID x /\ 0 <= AccessListTx.GasPrice x
  | DynamicFee x =>
      0 <= DynamicFeeTx.ChainID x /\
      0 <= DynamicFeeTx.GasFeeCap x /\ 0 <= DynamicFeeTx.GasTipCap x
  end.

(** A fee or signature value after the trip through a [uint64] field,
    and a chain id after the trip through the [uint32] field. *)
Definition through_uint64 (x : Z) : Z := big_NewInt (int64 (big_Uint64 x)).
Definition through_uint32 (x : Z) : Z :=
  big_NewInt (int64 (uint32 (big_Uint64 x))).

(** The recipient after the trip: the zero address for an absent one. *)
Definition recipient_after (to : option Address) : option Address :=
  match to with
  | Some a => Some a
  | None => Some zero_address
  end.

(** What a transaction becomes on the trip through the wire form. *)
Definition after_wire (tx : GoEth.Transaction) : GoEth.Transaction :=
  match tx with
  | Legacy x =>
      Legacy {| LegacyTx.Nonce := LegacyTx.Nonce x;
                LegacyTx.GasPrice := through_uint64 (LegacyTx.GasPrice x);
                LegacyTx.Gas := LegacyTx.Gas x;
                LegacyTx.To := recipient_after (LegacyTx.To x);
                LegacyTx.Value := Z.abs (LegacyTx.Value x);
                LegacyTx.Data := LegacyTx.Data x;
                LegacyTx.V := through_uint64 (LegacyTx.V x);
                LegacyTx.R := Z.abs (LegacyTx.R x);
                LegacyTx.S := Z.abs (LegacyTx.S x) |}
  | AccessList x =>
      AccessList {|
        AccessListTx.ChainID := through_uint32 (AccessListTx.ChainID x);
        AccessListTx.Nonce := AccessListTx.Nonce x;
        AccessListTx.GasPrice := through_uint64 (AccessListTx.GasPrice x);
        AccessListTx.Gas := AccessListTx.Gas x;
        AccessListTx.To := recipient_after (AccessListTx.To x);
        AccessListTx.Value := Z.abs (AccessListTx.Value x);
        AccessListTx.Data := AccessListTx.Data x;
        AccessListTx.AccessList := [];
        AccessListTx.V := through_uint64 (AccessListTx.V x);
        AccessListTx.R := Z.abs (AccessListTx.R x);
        AccessListTx.S := Z.abs (AccessListTx.S x) |}
  | DynamicFee x =>
      DynamicFee {|
        DynamicFeeTx.ChainID := through_uint32 (DynamicFeeTx.ChainID x);
        DynamicFeeTx.Nonce := DynamicFeeTx.Nonce x;
        DynamicFeeTx.GasTipCap := through_uint64 (DynamicFeeTx.GasTipCap x);
        DynamicFeeTx.GasFeeCap := through_uint64 (DynamicFeeTx.GasFeeCap x);
        DynamicFeeTx.Gas := DynamicFeeTx.Gas x;
        DynamicFeeTx.To := recipient_after (DynamicFeeTx.To x);
        DynamicFeeTx.Value := Z.abs (DynamicFeeTx.Value x);
        DynamicFeeTx.Data := DynamicFeeTx.Data x;
        DynamicFeeTx.AccessList := [];
        DynamicFeeTx.V := through_uint64 (DynamicFeeTx.V x);
        DynamicFeeTx.R := Z.abs (DynamicFeeTx.R x);
        DynamicFeeTx.S := Z.abs (DynamicFeeTx.S x) |}
  end.

End CodecSpecMore.

(** ** More concrete values *)

Module MoreSamples.
Import Go GoEth Codec ClientModel Samples.

(** A legacy wire transaction whose recipient field has 21 bytes. *)
Definition long_recipient_wire : eth.Transaction :=
  {| eth.ChainId := 1; eth.To := repeat x22 20 ++ [xff]; eth.Gas := 21000;
     eth.GasPrice := 0; eth.MaxFee := 0; eth.PriorityFee := 0;
     eth.Hash := []; eth.Input := []; eth.Nonce := 0; eth.Value := [];
     eth.From := []; eth.Type_ := 0; eth.V := 0; eth.R := []; eth.S := [] |}.

(** The legacy transfer with a gas price of [2^63]. *)
Definition overpriced_transfer : GoEth.Transaction :=
  Legacy {| LegacyTx.Nonce := 5; LegacyTx.GasPrice := 2 ^ 63;
            LegacyTx.Gas := 21000; LegacyTx.To := Some sample_recipient;
            LegacyTx.Value := 10 ^ 18; LegacyTx.Data := [];
            LegacyTx.V := 37; LegacyTx.R := 1; LegacyTx.S := 1 |}.

End MoreSamples.

(** ** More concrete streams *)

Module StreamSamples.
Import Go GoEth Codec ClientModel Samples.

(** A raw stream on which the write succeeds and no response ever
    arrives, and one on which the write fails as well. *)
Definition silent : RawTxStream :=
  {| Send := fun _ => None; Recv := None |}.
Definition silent_broken : RawTxStream :=
  {| Send := fun _ => Some EOF; Recv := None |}.

End StreamSamples.

(** ** A transport at teardown *)

Module TeardownSamples.
Import Go ClientModel Closing.

(** Every [CloseSend] fails, the connection closes cleanly. *)
Definition send_halves_fail : Teardown :=
  {| CloseSend := fun _ => Some EOF; conn_Close := None |}.

End TeardownSamples.

(** ** More of what the subscription properties are stated with *)

Module SubscriptionSpecMore.
Import Go ClientModel Subscription.

(** Whatever the receiver and however long the call [run] has been
    observed, the channel has seen the first [n] messages of the stream,
    each once and in arrival order, all of them received, followed by a
    close once the call has returned, and nothing else. *)
Definition in_arrival_order {Proto Event} (decode : Proto -> Event)
    (opened : ServerStream Proto + error)
    (run : (nat -> bool) -> nat -> status * list (chan_op Event)) : Prop :=
  match opened with
  | inr _ => True
  | inl res =>
      forall ready fuel,
      exists n,
        (n <= fuel)%nat /\
        (forall j, (j < n)%nat ->
           exists m, recv res j = inl m /\ ready j = true) /\
        snd (run ready fuel) =
          deliveries decode res n ++
          match fst (run ready fuel) with
          | Returned _ => [ChClose]
          | _ => []
          end
  end.

(** When the [n]-th push finds no receiver, the call [run] stays blocked
    on it, with the [n] earlier messages delivered and the channel open,
    whatever the stream does afterwards. *)
Definition stalls_without_receiver {Proto Event} (decode : Proto -> Event)
    (opened : ServerStream Proto + error)
    (run : (nat -> bool) -> nat -> status * list (chan_op Event)) : Prop :=
  match opened with
  | inr _ => True
  | inl res =>
      forall ready n,
        (forall j, (j <= n)%nat -> exists m, recv res j = inl m) ->
        (forall j, (j < n)%nat -> ready j = true) ->
        ready n = false ->
        forall fuel, (n < fuel)%nat ->
          run ready fuel = (BlockedOnPush, deliveries decode res n) /\
          count_close (snd (run ready fuel)) = 0%nat
  end.

End SubscriptionSpecMore.

(** ** A receiver that stops *)

Module SubscriptionSamples.
Import Go Codec ClientModel Subscription Samples.

(** A receiver that takes the first push and no other. *)
Definition takes_one (i : nat) : bool := Nat.eqb i 0.

End SubscriptionSamples.

(** ** The first revision of the client ([client.go]): unary calls *)

Module ClientGo.
Import Go GoEth Codec ClientModel Subscription.

Record Client := {
  target : string;
  conn : option ClientConn;
  client : option APIClient }.

Definition NewClient (target : string) : Client :=
  {| target := target; conn := None; client := None |}.

(** What the transport answers to the dial. *)
Record Dialer := {
  DialContext : string -> ClientConn + error;
  NewAPIClient : ClientConn -> APIClient }.

Definition Connect (net : Dialer) (c : Client) : Client * option error :=
  match DialContext net (target c) with
  | inr e => (c, Some e)
  | inl cn =>
      ({| target := target c; conn := Some cn;
          client := Some (NewAPIClient net cn) |}, None)
  end.

(** [Close] is [c.conn.Close()]; on a [nil] connection it panics. *)
Definition Close (conn_Close : option error) (c : Client)
  : outcome (option error) :=
  match conn c with
  | None => Panic NilDereference
  | Some _ => Return conn_Close
  end.

(** [api.BackrunMsg]. *)
Record BackrunMsg := { Hash : string; Tx : eth.Transaction }.

(** The unary calls of the stub, and the requests made of it.  A call
    answers a response or an error, or never answers ([None]): the
    operations pass the caller's context on and set no deadline. *)
Record UnaryServer := {
  rpc_SendTransaction :
    eth.Transaction -> option (api.TransactionResponse + error);
  rpc_Backrun : BackrunMsg -> option (api.TransactionResponse + error) }.

Inductive request :=
| CallSendTransaction (proto : eth.Transaction)
| CallBackrun (msg : BackrunMsg).

Definition unary_result : Type := string * Z * option error.

Section Unary.
Variable Sender : GoEth.Signer -> GoEth.Transaction -> GoEth.Address + error.
Variable HashOf : GoEth.Transaction -> bytes.
(** [hash.String()] of go-ethereum's [common.Hash]. *)
Variable Hash_String : bytes -> string.

(** Each operation gives the requests it made and how it ended: [None]
    when it never returns. *)
Definition SendTransaction (srv : UnaryServer) (c : Client)
    (tx : GoEth.Transaction)
  : list request * option (outcome unary_result) :=
  match TxToProto Sender HashOf tx with
  | inr e =>
      ([], Some (Return (EmptyString, 0,
                         Some (Wrapped "converting to protobuf" e))))
  | inl proto =>
      match client c with
      | None => ([], Some (Panic NilDereference))
      | Some _ =>
          match rpc_SendTransaction srv proto with
          | None => ([CallSendTransaction proto], None)
          | Some (inr e) =>
              ([CallSendTransaction proto],
               Some (Return (EmptyString, 0,
                             Some (Wrapped "sending tx to api" e))))
          | Some (inl res) =>
              ([CallSendTransaction proto],
               Some (Return (api.Hash res, api.Timestamp res, None)))
          end
      end
  end.

Definition BackrunTransaction (srv : UnaryServer) (c : Client)
    (hash : bytes) (tx : GoEth.Transaction)
  : list request * option (outcome unary_result) :=
  match TxToProto Sender HashOf tx with
  | inr e =>
      ([], Some (Return (EmptyString, 0,
                         Some (Wrapped "converting to protobuf" e))))
  | inl proto =>
      let msg := {| Hash := Hash_String hash; Tx := proto |} in
      match client c with
      | None => ([], Some (Panic NilDereference))
      | Some _ =>
          match rpc_Backrun srv msg with
          | None => ([CallBackrun msg], None)
          | Some (inr e) =>
              ([CallBackrun msg],
               Some (Return (EmptyString, 0,
                             Some (Wrapped "sending backrun to api" e))))
          | Some (inl res) =>
              ([CallBackrun msg],
               Some (Return (api.Hash res, api.Timestamp res, None)))
          end
      end
  end.
End Unary.

(** The receive loop of this revision: the decoder is [ProtoToTx] of the
    same file, which can panic; it runs before the push. *)
Section Loop.
Context {Proto Event : Type}.
Variable decode : Proto -> outcome Event.
Variable res : ServerStream Proto.
Variable receiver_ready : nat -> bool.

Fixpoint pump_decoding (fuel : nat) (i : nat) (log : list (chan_op Event))
  : status * list (chan_op Event) :=
  match fuel with
  | O => (Running, log)
  | S fuel' =>
      match recv res i with
      | inr e => (Returned e, log ++ [ChClose])
      | inl proto =>
          match decode proto with
          | Panic p => (Panicked p, log)
          | Return v =>
              if receiver_ready i
              then pump_decoding fuel' (S i) (log ++ [ChSend v])
              else (BlockedOnPush, log)
          end
      end
  end.
End Loop.

Definition subscribe_decoding {Proto Event : Type}
    (decode : Proto -> outcome Event)
    (opened : ServerStream Proto + error)
    (receiver_ready : nat -> bool) (fuel : nat)
  : status * list (chan_op Event) :=
  match opened with
  | inr e => (Returned (Wrapped "subscribing to api" e), [])
  | inl res => pump_decoding decode res receiver_ready fuel 0 []
  end.

(** [SubscribeNewTxs]: the filter goes to the stub as it is; what is
    pushed is the pointer [ProtoToTx] returns, [nil] included. *)
Definition SubscribeNewTxs
    (rpc : APIClient -> option api.TxFilter ->
           ServerStream eth.Transaction + error)
    (c : Client) (filter : option api.TxFilter)
    (receiver_ready : nat -> bool) (fuel : nat)
  : status * list (chan_op (option GoEth.Transaction)) :=
  match client c with
  | None => (Panicked NilDereference, [])
  | Some stub =>
      subscribe_decoding ProtoToTx (rpc stub filter) receiver_ready fuel
  end.

(** [SubscribeNewBlocks] pushes each message as it came. *)
Definition SubscribeNewBlocks {Block BlockFilter : Type}
    (rpc : APIClient -> option BlockFilter -> ServerStream Block + error)
    (c : Client) (filter : option BlockFilter)
    (receiver_ready : nat -> bool) (fuel : nat)
  : status * list (chan_op Block) :=
  match client c with
  | None => (Panicked NilDereference, [])
  | Some stub =>
      subscribe_decoding (fun proto => Return proto) (rpc stub filter)
                         receiver_ready fuel
  end.

End ClientGo.

(** ** What the properties of [client.go] are stated with *)

Module ClientGoSpec.
Import Go GoEth Codec ClientModel Subscription.

(** The stream that yields the messages [msgs] and then ends with [e]. *)
Definition stream_of {Proto} (msgs : list Proto) (e : error)
  : ServerStream Proto :=
  {| recv := fun i => match nth_error msgs i with
                      | Some m => inl m
                      | None => inr e
                      end |}.

(** The pointer [ProtoToTx] returns for a message it does not panic on. *)
Definition decoded_or_nil (proto : eth.Transaction)
  : option GoEth.Transaction :=
  match ProtoToTx proto with
  | Return r => r
  | Panic _ => None
  end.

(** The recipient field is empty or holds at least an address. *)
Definition recipient_converts (proto : eth.Transaction) : Prop :=
  eth.To proto = [] \/ AddressLength <= len (eth.To proto).

End ClientGoSpec.

(** ** Concrete values for [client.go] *)

Module ClientGoSamples.
Import Go GoEth Codec ClientModel Subscription Samples ClientGo ClientGoSpec.

Definition connected_v1 : ClientGo.Client :=
  {| ClientGo.target := "fiber.example:8080";
     ClientGo.conn := Some {| conn_target := "fiber.example:8080" |};
     ClientGo.client :=
       Some {| stub_conn := {| conn_target := "fiber.example:8080" |} |} |}.

(** A server that answers every subscription with the given messages
    followed by [io.EOF]. *)
Definition rpc_yielding (msgs : list eth.Transaction)
    (stub : APIClient) (filter : option api.TxFilter)
  : ServerStream eth.Transaction + error :=
  inl (stream_of msgs EOF).

(** A server whose unary calls fail with a status error, and one that
    never answers. *)
Definition unary_failing : UnaryServer :=
  {| rpc_SendTransaction := fun _ => Some (inr (Status 14));
     rpc_Backrun := fun _ => Some (inr (Status 14)) |}.

Definition unary_silent : UnaryServer :=
  {| rpc_SendTransaction := fun _ => None;
     rpc_Backrun := fun _ => None |}.

Definition sample_Hash_String (hash : bytes) : string := "0x00".

End ClientGoSamples.

(** ** More concrete values for [client.go] *)

Module ClientGoSamples2.
Import Go GoEth Codec ClientModel Subscription Samples ClientGo ClientGoSpec.

(** A server that answers the block subscription with two blocks
    (numbers stand for them) followed by [io.EOF]. *)
Definition rpc_blocks (stub : APIClient) (filter : option unit)
  : ServerStream Z + error :=
  inl (stream_of [1; 2] EOF).

End ClientGoSamples2.

(** ** The legacy transfer at other gas prices *)

Module PricedSamples.
Import Go GoEth Codec ClientModel Samples.

Definition transfer_priced (gasPrice : Z) : GoEth.Transaction :=
  Legacy {| LegacyTx.Nonce := 5; LegacyTx.GasPrice := gasPrice;
            LegacyTx.Gas := 21000; LegacyTx.To := Some sample_recipient;
            LegacyTx.Value := 10 ^ 18; LegacyTx.Data := [];
            LegacyTx.V := 37; LegacyTx.R := 1; LegacyTx.S := 1 |}.

End PricedSamples.

(* ===================================================================== *)
(** * Part II: properties                                                 *)
(* ===================================================================== *)

(** ** math/big and integer conversions *)

Module GoFacts.
Import Go.

Lemma to_N_byte_of_N (n : N) : (n < 256)%N -> Byte.to_N (byte_of_N n) = n.
Proof.
  intros Hn. unfold byte_of_N.
  destruct (Byte.of_N n) as [b|] eqn:E.
  - now apply Byte.to_of_N.
  - apply Byte.of_N_None_iff in E. lia.
Qed.

Lemma le_value_digits (fuel : nat) :
  forall n, (n < 2 ^ N.of_nat fuel)%N -> le_value (le_digits fuel n) = n.
Proof.
  induction fuel as [|fuel IH]; intros n Hn.
  - simpl in *. lia.
  - cbn [le_digits]. destruct (N.eqb_spec n 0) as [->|Hnz]; [reflexivity|].
    cbn [le_value fold_right]. fold (le_value (le_digits fuel (n / 256))).
    rewrite to_N_byte_of_N by (apply N.mod_lt; lia).
    rewrite IH.
    + pose proof (N.div_mod n 256). lia.
    + rewrite Nnat.Nat2N.inj_succ, N.pow_succ_r' in Hn.
      apply N.Div0.div_lt_upper_bound. lia.
Qed.

Lemma big_SetBytes_rev (l : bytes) :
  big_SetBytes (rev l) = Z.of_N (le_value l).
Proof.
  unfold big_SetBytes, le_value. f_equal.
  rewrite <- (rev_involutive l) at 2.
  now rewrite fold_left_rev_right.
Qed.

(** [SetBytes] reads back the magnitude [Bytes] wrote. *)
Lemma big_SetBytes_Bytes (x : Z) : big_SetBytes (big_Bytes x) = Z.abs x.
Proof.
  unfold big_Bytes. cbv zeta. rewrite big_SetBytes_rev, le_value_digits.
  - apply N2Z.inj_abs_N.
  - rewrite Nnat.N2Nat.id. apply N.size_gt.
Qed.

Lemma big_SetBytes_Bytes_nonneg (x : Z) :
  0 <= x -> big_SetBytes (big_Bytes x) = x.
Proof. intros. rewrite big_SetBytes_Bytes. lia. Qed.

Lemma big_SetBytes_nonneg (buf : bytes) : 0 <= big_SetBytes buf.
Proof. unfold big_SetBytes. lia. Qed.

(** A magnitude below [2^63] survives [Uint64], [int64] and [NewInt]. *)
Lemma int64_big_Uint64 (x : Z) :
  0 <= x < 2 ^ 63 -> big_NewInt (int64 (big_Uint64 x)) = x.
Proof.
  intros Hx. unfold big_NewInt, int64, big_Uint64. cbv zeta.
  rewrite Z.abs_eq by lia.
  rewrite Z.mod_mod by lia.
  rewrite (Z.mod_small x (2 ^ 64)) by lia.
  destruct (Z.ltb_spec x (2 ^ 63)); lia.
Qed.

(** A chain id below [2^32] survives the [uint32] field as well. *)
Lemma int64_uint32_big_Uint64 (x : Z) :
  0 <= x < 2 ^ 32 -> big_NewInt (int64 (uint32 (big_Uint64 x))) = x.
Proof.
  intros Hx. unfold big_NewInt, int64, uint32, big_Uint64. cbv zeta.
  rewrite Z.abs_eq by lia.
  rewrite (Z.mod_small x (2 ^ 64)) by lia.
  rewrite (Z.mod_small x (2 ^ 32)) by lia.
  rewrite (Z.mod_small x (2 ^ 64)) by lia.
  destruct (Z.ltb_spec x (2 ^ 63)); lia.
Qed.

(** [Bytes] and [SetBytes] on the value of the scenario, 10^18. *)
Example big_Bytes_samples :
  big_Bytes 0 = [] /\
  big_Bytes 256 = [x01; x00] /\
  big_Bytes (- 256) = [x01; x00] /\
  big_Bytes (10 ^ 18) = [x0d; xe0; xb6; xb3; xa7; x64; x00; x00] /\
  big_SetBytes [x0d; xe0; xb6; xb3; xa7; x64; x00; x00] = 10 ^ 18.
Proof. repeat split. Qed.

Lemma len_nonneg {A} (l : list A) : 0 <= len l.
Proof. unfold len. lia. Qed.

Lemma len_nil_iff {A} (l : list A) : len l = 0 <-> l = [].
Proof.
  unfold len. destruct l; cbn [length]; split; intros H;
    try reflexivity; try discriminate; lia.
Qed.

End GoFacts.

(** ** The codec *)

Module CodecFacts.
Import Go GoEth Codec CodecSpec GoFacts Samples.

Lemma slice_to_Address_valid (a : Address) :
  valid_address a -> slice_to_Address a = Return a.
Proof.
  unfold valid_address, slice_to_Address, AddressLength, len. intros Ha.
  rewrite Ha. cbn [Z.ltb Z.compare Pos.compare Pos.compare_cont].
  f_equal. apply firstn_all2. lia.
Qed.

(** [TxToProto] is [Sender] under the chain-id-1 London signer followed
    by a construction that cannot fail. *)
Lemma TxToProto_inv Sender HashOf tx proto :
  TxToProto Sender HashOf tx = inl proto ->
  exists sender,
    Sender (NewLondonSigner 1) tx = inl sender /\
    eth.To proto = match GoEth.To tx with Some a => a | None => [] end /\
    eth.Type_ proto = GoEth.Type_ tx /\
    eth.From proto = sender.
Proof.
  unfold TxToProto. cbv zeta.
  destruct (Sender (NewLondonSigner 1) tx) as [sender|e]; [|discriminate].
  destruct (RawSignatureValues tx) as [[v r] s].
  intros H. injection H as <-. exists sender. cbn.
  repeat split. destruct tx; reflexivity.
Qed.

(** With an empty recipient field, or one of at least 20 bytes,
    [ProtoToTx] returns, and returns [nil] exactly for an unknown tag. *)
Lemma ProtoToTx_returns (proto : eth.Transaction) :
  eth.To proto = [] \/ AddressLength <= len (eth.To proto) ->
  exists r, ProtoToTx proto = Return r /\
            (r = None <-> known_tag (eth.Type_ proto) = false).
Proof.
  intros Hto. unfold ProtoToTx. cbv zeta.
  assert (Hret : exists to,
    (if 0 <? len (eth.To proto) then slice_to_Address (eth.To proto)
     else Return zero_address) = Return to).
  { destruct Hto as [-> | Hlen].
    - cbn. eauto.
    - unfold slice_to_Address.
      destruct (Z.ltb_spec 0 (len (eth.To proto)));
        destruct (Z.ltb_spec (len (eth.To proto)) AddressLength);
        try lia; eauto. }
  destruct Hret as [to ->].
  destruct (eth.Type_ proto) as [|[q|q|]|q]; try destruct q;
    eexists; (split; [reflexivity|]); cbn; split; congruence.
Qed.

(** The recipient field of a decoded transaction, for an empty wire
    recipient: the zero address. *)
Lemma ProtoToTx_empty_To (proto : eth.Transaction) (tx : GoEth.Transaction) :
  eth.To proto = [] ->
  ProtoToTx proto = Return (Some tx) ->
  GoEth.To tx = Some zero_address.
Proof.
  intros Hto. unfold ProtoToTx. cbv zeta. rewrite Hto. cbn [len length Z.of_nat Z.ltb Z.compare].
  destruct (eth.Type_ proto) as [|[q|q|]|q]; try destruct q;
    intros H; inversion H; reflexivity.
Qed.

Lemma uint32_tag (tx : GoEth.Transaction) :
  uint32 (GoEth.Type_ tx) = GoEth.Type_ tx.
Proof. destruct tx; reflexivity. Qed.

(** Decoding the encoding of a transaction whose magnitudes the wire
    carries exactly gives the transaction back, less its access list. *)
Lemma roundtrip_exact Sender HashOf tx proto :
  exact_on_wire tx ->
  TxToProto Sender HashOf tx = inl proto ->
  ProtoToTx proto = Return (Some (without_access_list tx)).
Proof.
  unfold exact_on_wire, TxToProto. cbv zeta.
  destruct (Sender (NewLondonSigner 1) tx) as [sender|e];
    [|intros _ Henc; discriminate Henc].
  destruct (RawSignatureValues tx) as [[v r] s] eqn:Hvrs.
  intros ([a [Hto Ha]] & Hval & (Hv & Hr & Hs) & Hfee) Henc.
  injection Henc as <-. unfold ProtoToTx. cbv zeta.
  cbn [eth.To eth.Type_ eth.Nonce eth.GasPrice eth.Gas eth.Value eth.Input
       eth.V eth.R eth.S eth.ChainId eth.MaxFee eth.PriorityFee].
  rewrite Hto.
  assert (Hlen : (0 <? len a) = true).
  { unfold valid_address, AddressLength in Ha. rewrite Ha. reflexivity. }
  rewrite Hlen, (slice_to_Address_valid a Ha), uint32_tag.
  rewrite !big_SetBytes_Bytes_nonneg by assumption.
  rewrite (int64_big_Uint64 v) by assumption.
  destruct tx as [x|x|x]; destruct x; cbn in *;
    injection Hvrs as <- <- <-; subst;
    repeat match goal with H : _ /\ _ |- _ => destruct H end;
    rewrite ?int64_uint32_big_Uint64, ?int64_big_Uint64 by lia;
    reflexivity.
Qed.

Lemma without_access_list_common (tx : GoEth.Transaction) :
  same_common_fields tx (without_access_list tx).
Proof. destruct tx; repeat split. Qed.

Lemma without_access_list_typed (tx : GoEth.Transaction) :
  same_typed_fields tx (without_access_list tx).
Proof. destruct tx; repeat split. Qed.

(** C2, as amended.  For a transaction of any of the three types with a
    present recipient and magnitudes the wire carries exactly, whose
    encoding succeeds, [ProtoToTx (TxToProto tx)] is a transaction with
    the same type, nonce, gas limit, value, recipient, input and
    signature triple, the same chain id for the access-list and
    dynamic-fee types, the same gas price for the legacy and access-list
    types, and the same fee cap and tip cap for the dynamic-fee type. *)
Theorem roundtrip_present_recipient Sender HashOf tx proto :
  exact_on_wire tx ->
  TxToProto Sender HashOf tx = inl proto ->
  exists tx', ProtoToTx proto = Return (Some tx') /\
              same_common_fields tx tx' /\
              same_typed_fields tx tx'.
Proof.
  intros Hexact Henc. exists (without_access_list tx).
  split; [now apply (roundtrip_exact Sender HashOf)|].
  split; [apply without_access_list_common|apply without_access_list_typed].
Qed.

Lemma legacy_transfer_exact : exact_on_wire legacy_transfer.
Proof.
  unfold exact_on_wire. cbn.
  split; [exists sample_recipient; split; reflexivity|].
  repeat split; try lia; discriminate.
Qed.

(** The scenario of the specification: the legacy transfer with nonce 5,
    gas 21000, gas price 10^9 and value 10^18 round-trips. *)
Lemma roundtrip_present_recipient_witness :
  exists proto tx',
    TxToProto sample_Sender sample_Hash legacy_transfer = inl proto /\
    ProtoToTx proto = Return (Some tx') /\
    same_common_fields legacy_transfer tx' /\
    same_typed_fields legacy_transfer tx'.
Proof.
  destruct (roundtrip_present_recipient sample_Sender sample_Hash
              legacy_transfer _ legacy_transfer_exact eq_refl)
    as (tx' & Hdec & Hcommon & Htyped).
  eexists. exists tx'. split; [reflexivity|].
  exact (conj Hdec (conj Hcommon Htyped)).
Defined.

(** C2 as stated fails on a contract creation: its encoding succeeds
    and decodes to a transaction whose recipient is the zero address,
    not the absent recipient of the original. *)
Lemma roundtrip_loses_absent_recipient :
  exists proto tx',
    TxToProto sample_Sender sample_Hash contract_creation = inl proto /\
    ProtoToTx proto = Return (Some tx') /\
    GoEth.To contract_creation = None /\
    GoEth.To tx' = Some zero_address /\
    GoEth.To tx' <> GoEth.To contract_creation.
Proof.
  eexists. eexists. split; [reflexivity|]. split; [reflexivity|].
  repeat split. discriminate.
Qed.

(** The precision boundary of the fee fields: a gas price of [2^64]
    is sent as 0, one of [2^63] is read back negative. *)
Example gas_price_wraps :
  big_NewInt (int64 (big_Uint64 (2 ^ 64))) = 0 /\
  big_NewInt (int64 (big_Uint64 (2 ^ 63))) = - 2 ^ 63.
Proof. split; reflexivity. Qed.

(** C5.  [TxToProto] yields a wire transaction exactly when sender
    recovery (under the signer it builds) succeeds, and fails, with the
    error of the recovery, exactly when the recovery fails: nothing
    else makes it fail. *)
Theorem TxToProto_fails_only_on_recovery Sender HashOf tx :
  ((exists proto, TxToProto Sender HashOf tx = inl proto) <->
   (exists sender, Sender (NewLondonSigner 1) tx = inl sender)) /\
  (forall e, TxToProto Sender HashOf tx = inr e <->
             Sender (NewLondonSigner 1) tx = inr e).
Proof.
  unfold TxToProto. cbv zeta.
  destruct (Sender (NewLondonSigner 1) tx) as [sender|e0];
    destruct (RawSignatureValues tx) as [[v r] s].
  - split.
    + split; intros _; eexists; reflexivity.
    + intros e. split; discriminate.
  - split.
    + split; intros [x Hx]; discriminate.
    + intros e. split; intros H; injection H as <-; reflexivity.
Qed.

(** C6, at the failing input: for the unknown type tag 3 and a one-byte
    recipient, [ProtoToTx] panics in the conversion of the recipient,
    before the switch on the tag is reached. *)
Theorem ProtoToTx_short_recipient_panics :
  known_tag (eth.Type_ short_recipient_wire) = false /\
  ProtoToTx short_recipient_wire = Panic (SliceToArrayTooShort 1 20).
Proof. split; reflexivity. Qed.

(** The dispatch itself: when the recipient conversion does not panic,
    tag 0 gives a legacy, 1 an access-list and 2 a dynamic-fee
    transaction, and any other tag gives [nil]. *)
Lemma ProtoToTx_dispatch (proto : eth.Transaction) :
  eth.To proto = [] \/ AddressLength <= len (eth.To proto) ->
  match eth.Type_ proto with
  | 0 => exists x, ProtoToTx proto = Return (Some (Legacy x))
  | 1 => exists x, ProtoToTx proto = Return (Some (AccessList x))
  | 2 => exists x, ProtoToTx proto = Return (Some (DynamicFee x))
  | _ => ProtoToTx proto = Return None
  end.
Proof.
  intros Hto. unfold ProtoToTx. cbv zeta.
  assert (Hret : exists to,
    (if 0 <? len (eth.To proto) then slice_to_Address (eth.To proto)
     else Return zero_address) = Return to).
  { destruct Hto as [-> | Hlen].
    - cbn. eauto.
    - unfold slice_to_Address.
      destruct (Z.ltb_spec 0 (len (eth.To proto)));
        destruct (Z.ltb_spec (len (eth.To proto)) AddressLength);
        try lia; eauto. }
  destruct Hret as [to ->].
  destruct (eth.Type_ proto) as [|[q|q|]|q]; try destruct q;
    try reflexivity; eexists; reflexivity.
Qed.

Lemma known_tag_of_tx (tx : GoEth.Transaction) :
  known_tag (GoEth.Type_ tx) = true.
Proof. destruct tx; reflexivity. Qed.

(** For a known tag and a recipient field of 20 bytes [a], [ProtoToTx]
    returns a transaction addressed to [a]. *)
Lemma ProtoToTx_present_To (proto : eth.Transaction) (a : Address) :
  eth.To proto = a -> valid_address a ->
  known_tag (eth.Type_ proto) = true ->
  exists tx, ProtoToTx proto = Return (Some tx) /\ GoEth.To tx = Some a.
Proof.
  intros Hto Ha Htag. unfold ProtoToTx. cbv zeta. rewrite Hto.
  assert (Hlen : (0 <? len a) = true).
  { unfold valid_address, AddressLength in Ha. rewrite Ha. reflexivity. }
  rewrite Hlen, (slice_to_Address_valid a Ha).
  destruct (eth.Type_ proto) as [|[q|q|]|q]; try destruct q;
    try discriminate Htag; eexists; split; reflexivity.
Qed.

Lemma ProtoToTx_known_empty_To (proto : eth.Transaction) :
  eth.To proto = [] ->
  known_tag (eth.Type_ proto) = true ->
  exists tx, ProtoToTx proto = Return (Some tx).
Proof.
  intros Hto Htag. unfold ProtoToTx. cbv zeta. rewrite Hto.
  cbn [len length Z.of_nat Z.ltb Z.compare].
  destruct (eth.Type_ proto) as [|[q|q|]|q]; try destruct q;
    try discriminate Htag; eexists; reflexivity.
Qed.

(** C8.  For a wire transaction with an empty recipient field,
    [ProtoToTx] returns (it does not panic), any transaction it returns
    is addressed to the all-zero address, never to an absent recipient,
    and it does return one for each known tag.  So a contract creation,
    which [TxToProto] encodes with an empty recipient field, decodes to
    a transaction addressed to the zero address, while a present
    recipient is reproduced. *)
Theorem empty_recipient_decodes_to_zero_address Sender HashOf :
  (forall proto, eth.To proto = [] ->
     exists r, ProtoToTx proto = Return r /\
       (forall tx, r = Some tx -> GoEth.To tx = Some zero_address) /\
       (known_tag (eth.Type_ proto) = true -> exists tx, r = Some tx)) /\
  (forall tx proto,
     GoEth.To tx = None -> TxToProto Sender HashOf tx = inl proto ->
     eth.To proto = [] /\
     exists tx', ProtoToTx proto = Return (Some tx') /\
                 GoEth.To tx' = Some zero_address /\
                 GoEth.To tx' <> GoEth.To tx) /\
  (forall tx a proto,
     GoEth.To tx = Some a -> valid_address a ->
     TxToProto Sender HashOf tx = inl proto ->
     exists tx', ProtoToTx proto = Return (Some tx') /\
                 GoEth.To tx' = GoEth.To tx).
Proof.
  split; [|split].
  - intros proto Hto.
    destruct (ProtoToTx_returns proto (or_introl Hto)) as (r & Hr & Hnone).
    exists r. split; [exact Hr|]. split.
    + intros tx ->. now apply (ProtoToTx_empty_To proto).
    + intros Htag.
      destruct (ProtoToTx_known_empty_To proto Hto Htag) as [tx Htx].
      exists tx. congruence.
  - intros tx proto Hnone Henc.
    destruct (TxToProto_inv _ _ _ _ Henc) as (sender & _ & Hto & Htag & _).
    rewrite Hnone in Hto. split; [exact Hto|].
    assert (Hk : known_tag (eth.Type_ proto) = true)
      by (rewrite Htag; apply known_tag_of_tx).
    destruct (ProtoToTx_known_empty_To proto Hto Hk) as [tx' Htx'].
    exists tx'. split; [exact Htx'|].
    pose proof (ProtoToTx_empty_To proto tx' Hto Htx') as Hz.
    split; [exact Hz|]. rewrite Hz, Hnone. discriminate.
  - intros tx a proto Hsome Ha Henc.
    destruct (TxToProto_inv _ _ _ _ Henc) as (sender & _ & Hto & Htag & _).
    rewrite Hsome in Hto.
    assert (Hk : known_tag (eth.Type_ proto) = true)
      by (rewrite Htag; apply known_tag_of_tx).
    destruct (ProtoToTx_present_To proto a Hto Ha Hk) as (tx' & Htx' & Hto').
    exists tx'. split; [exact Htx'|]. now rewrite Hsome.
Qed.

(** The three parts at concrete inputs: an empty-recipient legacy wire
    transaction, the contract creation, the transfer. *)
Lemma empty_recipient_decodes_to_zero_address_witness :
  (exists r, ProtoToTx (empty_recipient_wire 0) = Return r /\
     (forall tx, r = Some tx -> GoEth.To tx = Some zero_address) /\
     (known_tag 0 = true -> exists tx, r = Some tx)) /\
  (exists proto tx',
     TxToProto sample_Sender sample_Hash contract_creation = inl proto /\
     ProtoToTx proto = Return (Some tx') /\
     GoEth.To tx' = Some zero_address) /\
  (exists proto tx',
     TxToProto sample_Sender sample_Hash legacy_transfer = inl proto /\
     ProtoToTx proto = Return (Some tx') /\
     GoEth.To tx' = Some sample_recipient).
Proof.
  destruct (empty_recipient_decodes_to_zero_address sample_Sender sample_Hash)
    as (H1 & H2 & H3).
  split; [exact (H1 (empty_recipient_wire 0) eq_refl)|]. split.
  - destruct (H2 contract_creation _ eq_refl eq_refl)
      as (_ & tx' & Hdec & Hz & _).
    eexists. exists tx'. split; [reflexivity|]. exact (conj Hdec Hz).
  - destruct (H3 legacy_transfer sample_recipient _ eq_refl eq_refl eq_refl)
      as (tx' & Hdec & Hto).
    eexists. exists tx'. split; [reflexivity|]. exact (conj Hdec Hto).
Defined.

(** go-ethereum's London signer refuses a typed transaction whose
    declared chain id is not the signer's, whatever the signature and
    whatever the curve recovery would answer. *)
Lemma london_signer_refuses_other_chain sigHash recoverPlain HashOf tx :
  GoEth.Type_ tx <> LegacyTxType ->
  GoEth.ChainId tx <> 1 ->
  TxToProto (london_Sender sigHash recoverPlain) HashOf tx
    = inr ErrInvalidChainId.
Proof.
  intros Htype Hchain. unfold TxToProto, london_Sender. cbv zeta.
  destruct (RawSignatureValues tx) as [[v r] s].
  destruct tx as [x|x|x]; [now contradiction Htype| |];
    cbn [signer_chainId];
    match goal with
    | |- context [GoEth.ChainId ?t =? 1] =>
        destruct (Z.eqb_spec (GoEth.ChainId t) 1) as [E|E]
    end;
    try (now contradiction Hchain); reflexivity.
Qed.

(** C9, as amended.  [TxToProto] recovers the sender with the London
    signer of chain id 1, whatever chain id the transaction declares: it
    succeeds, with the recovered address as [From], exactly when that
    recovery succeeds, and fails with the recovery's error otherwise; its
    result depends on the recovery function only through what it answers
    for that one signer.  The declared chain id does not choose the
    signer, but it can decide the answer: under go-ethereum's London
    signer an access-list or dynamic-fee transaction that declares a
    chain id other than 1 is refused with the invalid-chain-id error,
    whatever its signature. *)
Theorem TxToProto_uses_chain_id_1_signer Sender HashOf tx :
  match Sender (NewLondonSigner 1) tx with
  | inl sender =>
      exists proto, TxToProto Sender HashOf tx = inl proto /\
                    eth.From proto = sender
  | inr e => TxToProto Sender HashOf tx = inr e
  end /\
  (forall Sender',
      Sender' (NewLondonSigner 1) tx = Sender (NewLondonSigner 1) tx ->
      TxToProto Sender' HashOf tx = TxToProto Sender HashOf tx) /\
  (forall sigHash recoverPlain,
      GoEth.Type_ tx <> LegacyTxType ->
      GoEth.ChainId tx <> 1 ->
      TxToProto (london_Sender sigHash recoverPlain) HashOf tx
        = inr ErrInvalidChainId).
Proof.
  split; [|split].
  - unfold TxToProto. cbv zeta.
    destruct (Sender (NewLondonSigner 1) tx) as [sender|e]; [|reflexivity].
    destruct (RawSignatureValues tx) as [[v r] s].
    eexists. split; reflexivity.
  - intros Sender' Heq. unfold TxToProto. cbv zeta. now rewrite Heq.
  - intros sigHash recoverPlain.
    apply london_signer_refuses_other_chain.
Qed.

(** The dynamic-fee transaction declaring chain id 5 is refused. *)
Lemma TxToProto_uses_chain_id_1_signer_witness :
  TxToProto sample_Sender sample_Hash (dynamic_fee_on 5)
    = inr ErrInvalidChainId.
Proof.
  refine (proj2 (proj2 (TxToProto_uses_chain_id_1_signer
                          sample_Sender sample_Hash (dynamic_fee_on 5)))
                sample_sigHash sample_recoverPlain _ _); discriminate.
Defined.

(** C9 as stated fails: under go-ethereum's London signer for chain
    id 1, of two dynamic-fee transactions that differ in the declared
    chain id only, the one declaring 1 is encoded and the one declaring
    5 is refused. *)
Lemma declared_chain_id_decides_encoding :
  (exists proto,
      TxToProto sample_Sender sample_Hash (dynamic_fee_on 1) = inl proto) /\
  TxToProto sample_Sender sample_Hash (dynamic_fee_on 5)
    = inr ErrInvalidChainId.
Proof. split; [eexists|]; reflexivity. Qed.

(** The dispatch at a dynamic-fee wire transaction. *)
Lemma ProtoToTx_dispatch_witness :
  exists x, ProtoToTx (empty_recipient_wire 2) = Return (Some (DynamicFee x)).
Proof.
  exact (ProtoToTx_dispatch (empty_recipient_wire 2) (or_introl eq_refl)).
Defined.

(** [ProtoToTx] does not include the access list: every transaction it
    returns, of whatever type, carries an empty one. *)
Theorem ProtoToTx_drops_access_list (proto : eth.Transaction)
    (tx : GoEth.Transaction) :
  ProtoToTx proto = Return (Some tx) -> AccessList_of tx = [].
Proof.
  unfold ProtoToTx. cbv zeta.
  destruct (if 0 <? len (eth.To proto)
            then slice_to_Address (eth.To proto)
            else Return zero_address) as [to|p]; [|discriminate].
  destruct (eth.Type_ proto) as [|[q|q|]|q]; try destruct q;
    intros H; inversion H; reflexivity.
Qed.

Lemma ProtoToTx_drops_access_list_witness :
  exists tx, ProtoToTx (empty_recipient_wire 1) = Return (Some tx) /\
             AccessList_of tx = [].
Proof.
  eexists. split; [reflexivity|].
  exact (ProtoToTx_drops_access_list (empty_recipient_wire 1) _ eq_refl).
Defined.

End CodecFacts.

(** ** The send operations *)

Module CorrelatorFacts.
Import Go GoEth Codec ClientModel Correlator Samples.

Section CallFacts.
Context {Req Resp R : Type}.
Variable stream : Stream Req Resp.
Variable msg : Req.
Variable on_error : error -> R.
Variable on_response : Resp -> outcome R.

Local Abbreviation step := (step stream msg on_error on_response).
Local Abbreviation steps := (steps stream msg on_error on_response).
Local Abbreviation call := (call stream msg on_error on_response).
Local Abbreviation call_ends :=
  (call_ends stream msg on_error on_response).

Lemma steps_trans c1 c2 c3 : steps c1 c2 -> steps c2 c3 -> steps c1 c3.
Proof.
  induction 1 as [|a b c Hab Hbc IH]; [trivial|].
  intros H. eapply steps_cons; [exact Hab|]. now apply IH.
Qed.

Lemma steps_one c1 c2 : step c1 c2 -> steps c1 c2.
Proof. intros H. eapply steps_cons; [exact H|apply steps_refl]. Qed.

Local Abbreviation sound := (sound stream msg on_error on_response).

Lemma sound_initial : sound initial.
Proof. split; cbn; intros ? H; discriminate H. Qed.

Lemma sound_step c1 c2 : step c1 c2 -> sound c1 -> sound c2.
Proof.
  intros Hstep [Hunit Hmain].
  destruct Hstep as [m Hs|m e Hs|e|u Hu|u r Hr|u e Hr]; split; cbn in *;
    try (intros ? H; discriminate H); try assumption.
  - intros e' H. injection H as <-. exact Hs.
  - intros o H. injection H as <-. exists true.
    unfold Correlator.call. now rewrite (Hunit e eq_refl).
  - intros o H. injection H as <-. exists false.
    unfold Correlator.call. now rewrite Hr.
  - intros o H. injection H as <-. exists false.
    unfold Correlator.call. now rewrite Hr.
Qed.

Lemma sound_steps c1 c2 : steps c1 c2 -> sound c1 -> sound c2.
Proof. induction 1; eauto using sound_step. Qed.

(** From [Recv] on, the caller ends with what [call false] says. *)
Lemma recv_ends u o :
  call false = Some o ->
  steps {| main := AtRecv; unit_ := u |} {| main := Done o; unit_ := u |}.
Proof.
  unfold Correlator.call.
  destruct (Recv stream) as [[r|e]|] eqn:Hr; intros H;
    [injection H as <-..|discriminate H]; apply steps_one.
  - now apply step_recv_ok.
  - now apply step_recv_fail.
Qed.

(** The interleavings of the two units end with exactly the outcomes
    [call] computes for its two scheduling choices. *)
Lemma call_adequate o : call_ends o <-> exists b, call b = Some o.
Proof.
  split.
  - intros (c & Hsteps & Hdone).
    exact (proj2 (sound_steps _ _ Hsteps sound_initial) o Hdone).
  - intros [b Hb]. unfold Correlator.call_ends, initial.
    destruct b; [destruct (Send stream msg) as [e|] eqn:Hs|].
    + unfold Correlator.call in Hb. rewrite Hs in Hb. injection Hb as <-.
      exists {| main := Done (Return (on_error e)); unit_ := SendOver |}.
      split; [|reflexivity].
      eapply steps_cons; [apply step_send_fail; exact Hs|].
      apply steps_one. apply step_select_errc.
    + assert (Hb' : call false = Some o)
        by (unfold Correlator.call in *; now rewrite Hs in Hb).
      exists {| main := Done o; unit_ := SendPending |}.
      split; [|reflexivity].
      eapply steps_cons; [now apply step_select_default|].
      now apply recv_ends.
    + exists {| main := Done o; unit_ := SendPending |}.
      split; [|reflexivity].
      eapply steps_cons; [now apply step_select_default|].
      now apply recv_ends.
Qed.

(** When the write does not fail, the scheduling choice is moot. *)
Lemma call_send_ok b : Send stream msg = None -> call b = call false.
Proof. intros Hs. unfold Correlator.call. destruct b; now rewrite ?Hs. Qed.

(** A write error that is on [errc] at the [select] is the result. *)
Lemma call_send_error_first e :
  Send stream msg = Some e -> call true = Some (Return (on_error e)).
Proof. intros Hs. unfold Correlator.call. now rewrite Hs. Qed.

(** A write that fails after the [select] is never looked at: the
    call ends as [Recv] ends, or never. *)
Lemma call_send_error_late o :
  call false = Some o ->
  call_ends_through_recv stream msg on_error on_response o.
Proof.
  intros Ho. exists SendPending.
  exists {| main := Done o; unit_ := SendPending |}. unfold initial.
  split; [|split].
  - apply steps_one. now apply step_select_default.
  - apply recv_ends. exact Ho.
  - reflexivity.
Qed.
End CallFacts.

(** The tail of the sequence operations on a response: a panic on index
    0 exactly for an empty collection, a normal return otherwise. *)
Lemma sequence_response_empty (res : api.TxSequenceResponse) :
  sequence_response res = Panic (IndexOutOfRange 0 0) <->
  api.SequenceResponse res = [].
Proof.
  unfold sequence_response.
  destruct (api.SequenceResponse res); split; intros H;
    try reflexivity; discriminate H.
Qed.

Lemma sequence_response_cons (res : api.TxSequenceResponse) first rest :
  api.SequenceResponse res = first :: rest ->
  sequence_response res =
    Return (map api.Hash (first :: rest), api.Timestamp first, None).
Proof. intros H. unfold sequence_response. now rewrite H. Qed.

(** One sequence call whose write succeeds and whose read yields [res]
    ends, in every interleaving, with the tail applied to [res]. *)
Lemma sequence_call_ok {Req} (s : Stream Req api.TxSequenceResponse)
    (msg : Req) (res : api.TxSequenceResponse) :
  Send s msg = None -> Recv s = Some (inl res) ->
  (forall b, call s msg sequence_error sequence_response b
             = Some (sequence_response res)) /\
  (forall o, call_ends s msg sequence_error sequence_response o ->
             o = sequence_response res).
Proof.
  intros Hs Hr.
  assert (Hcall : forall b, call s msg sequence_error sequence_response b
                            = Some (sequence_response res)).
  { intros b. rewrite call_send_ok by exact Hs.
    unfold call. now rewrite Hr. }
  split; [exact Hcall|].
  intros o Ho. apply call_adequate in Ho. destruct Ho as [b Hb].
  rewrite Hcall in Hb. now injection Hb as <-.
Qed.

(** C3, as amended.  When the write and the read of a sequence send both
    succeed and the decoded response collection is not empty, the call
    returns, in every interleaving, one hash per item of the response
    collection, in the order of that collection, with the timestamp of
    its first item and no error.  Nothing compares the collection with
    the input: the hashes are as many as the input items when the
    response has one item per input item. *)
Theorem sequence_send_returns_response_hashes Sender HashOf
    (c : Client) (send_first : bool)
    (res : api.TxSequenceResponse) first rest :
  api.SequenceResponse res = first :: rest ->
  (forall s transactions protoSeq,
      txSeqStream c = Some s ->
      encode_all Sender HashOf transactions = inl protoSeq ->
      Send s {| api.Sequence := protoSeq |} = None ->
      Recv s = Some (inl res) ->
      SendTransactionSequence Sender HashOf send_first c transactions =
        Some (Return (map api.Hash (first :: rest),
                      api.Timestamp first, None)) /\
      (forall o,
          call_ends s {| api.Sequence := protoSeq |} sequence_error
                    sequence_response o ->
          o = Return (map api.Hash (first :: rest),
                      api.Timestamp first, None))) /\
  (forall s rawTransactions,
      rawTxSeqStream c = Some s ->
      Send s {| api.RawTxs := rawTransactions |} = None ->
      Recv s = Some (inl res) ->
      SendRawTransactionSequence send_first c rawTransactions =
        Some (Return (map api.Hash (first :: rest),
                      api.Timestamp first, None)) /\
      (forall o,
          call_ends s {| api.RawTxs := rawTransactions |} sequence_error
                    sequence_response o ->
          o = Return (map api.Hash (first :: rest),
                      api.Timestamp first, None))).
Proof.
  intros Hres. rewrite <- (sequence_response_cons res first rest Hres).
  split.
  - intros s txs protoSeq Hc Henc Hs Hr.
    destruct (sequence_call_ok s {| api.Sequence := protoSeq |} res Hs Hr)
      as [Hcall Hends].
    split; [|exact Hends].
    unfold SendTransactionSequence, on_stream. rewrite Henc, Hc. apply Hcall.
  - intros s raws Hc Hs Hr.
    destruct (sequence_call_ok s {| api.RawTxs := raws |} res Hs Hr)
      as [Hcall Hends].
    split; [|exact Hends].
    unfold SendRawTransactionSequence, on_stream. rewrite Hc. apply Hcall.
Qed.

(** Three blobs answered by two items: two hashes, the first item's
    timestamp. *)
Lemma sequence_send_returns_response_hashes_witness :
  SendRawTransactionSequence true
    (set_rawTxSeqStream (Some (answering [item_a; item_b])) fresh_client)
    [blob; blob; blob]
  = Some (Return (["0xaa"; "0xbb"]%string, 1700, None)).
Proof.
  exact (proj1 (proj2 (sequence_send_returns_response_hashes
                  sample_Sender sample_Hash
                  (set_rawTxSeqStream (Some (answering [item_a; item_b]))
                                      fresh_client)
                  true {| api.SequenceResponse := [item_a; item_b] |}
                  item_a [item_b] eq_refl)
                (answering [item_a; item_b]) [blob; blob; blob]
                eq_refl eq_refl eq_refl)).
Defined.

(** C3 as stated fails: a raw sequence send of one item whose write and
    read succeed, answered by a collection of two items, returns two
    hashes, whatever the interleaving. *)
Lemma sequence_send_hash_count_is_the_responses :
  let c := set_rawTxSeqStream (Some (answering [item_a; item_b]))
                              fresh_client in
  length [blob] = 1%nat /\
  SendRawTransactionSequence true c [blob]
    = Some (Return (["0xaa"; "0xbb"]%string, 1700, None)) /\
  SendRawTransactionSequence false c [blob]
    = Some (Return (["0xaa"; "0xbb"]%string, 1700, None)) /\
  length ["0xaa"; "0xbb"]%string = 2%nat.
Proof. repeat split. Qed.

(** C10.  Both sequence operations read the timestamp at index 0 of the
    response collection with no check of its length: the read is
    defined exactly when the collection has an item, and a received
    response with an empty collection makes the operation panic on the
    index, where it returns no error value. *)
Theorem sequence_timestamp_index_unguarded Sender HashOf
    (c : Client) (send_first : bool) (res : api.TxSequenceResponse) :
  (api.SequenceResponse res = [] <->
   sequence_response res = Panic (IndexOutOfRange 0 0)) /\
  (api.SequenceResponse res <> [] <->
   exists hashes ts, sequence_response res = Return (hashes, ts, None)) /\
  (forall s transactions protoSeq,
      txSeqStream c = Some s ->
      encode_all Sender HashOf transactions = inl protoSeq ->
      send_first = false \/ Send s {| api.Sequence := protoSeq |} = None ->
      Recv s = Some (inl res) ->
      api.SequenceResponse res = [] ->
      SendTransactionSequence Sender HashOf send_first c transactions
        = Some (Panic (IndexOutOfRange 0 0))) /\
  (forall s rawTransactions,
      rawTxSeqStream c = Some s ->
      send_first = false \/ Send s {| api.RawTxs := rawTransactions |} = None ->
      Recv s = Some (inl res) ->
      api.SequenceResponse res = [] ->
      SendRawTransactionSequence send_first c rawTransactions
        = Some (Panic (IndexOutOfRange 0 0))).
Proof.
  split; [symmetry; apply sequence_response_empty|]. split.
  { unfold sequence_response.
    destruct (api.SequenceResponse res) as [|first rest]; split.
    - intros H. now contradiction H.
    - intros (hashes & ts & H). discriminate H.
    - intros _. eauto.
    - intros _. discriminate. }
  assert (Hcall : forall Req (s : Stream Req api.TxSequenceResponse) msg,
    send_first = false \/ Send s msg = None ->
    Recv s = Some (inl res) -> api.SequenceResponse res = [] ->
    call s msg sequence_error sequence_response send_first
      = Some (Panic (IndexOutOfRange 0 0))).
  { intros Req s msg Hsched Hr Hres.
    apply sequence_response_empty in Hres. rewrite <- Hres.
    destruct Hsched as [-> | Hs].
    - unfold call. now rewrite Hr.
    - rewrite call_send_ok by exact Hs. unfold call. now rewrite Hr. }
  split.
  - intros s txs protoSeq Hc Henc Hsched Hr Hres.
    unfold SendTransactionSequence, on_stream. rewrite Henc, Hc.
    now apply Hcall.
  - intros s raws Hc Hsched Hr Hres.
    unfold SendRawTransactionSequence, on_stream. rewrite Hc.
    now apply Hcall.
Qed.

(** A raw sequence send answered by an empty collection panics. *)
Lemma sequence_timestamp_index_unguarded_witness :
  SendRawTransactionSequence true
    (set_rawTxSeqStream (Some (answering [])) fresh_client) [blob]
  = Some (Panic (IndexOutOfRange 0 0)).
Proof.
  exact (proj2 (proj2 (proj2 (sequence_timestamp_index_unguarded
                  sample_Sender sample_Hash
                  (set_rawTxSeqStream (Some (answering [])) fresh_client)
                  true {| api.SequenceResponse := [] |})))
               (answering []) [blob] eq_refl (or_intror eq_refl)
               eq_refl eq_refl).
Defined.

(** C7, at the failing input.  On a stream whose [Send] fails with
    [io.EOF] and whose [Recv] fails with a status error, in the
    interleaving where the caller passes its [select] before the write
    unit has failed, [SendRawTransaction] goes on to [Recv] and returns
    the error of [Recv]: the write error is not the result. *)
Theorem send_error_lost_after_select :
  let c := set_rawTxStream (Some broken) fresh_client in
  Send broken {| api.RawTx := blob |} = Some EOF /\
  SendRawTransaction false c blob
    = Some (Return (single_error (Status 14))) /\
  call_ends_through_recv broken {| api.RawTx := blob |}
    single_error single_response (Return (single_error (Status 14))) /\
  single_error (Status 14) <> single_error EOF.
Proof.
  cbv zeta. split; [reflexivity|]. split; [reflexivity|]. split.
  - apply call_send_error_late. reflexivity.
  - discriminate.
Qed.

(** The write error is the result only in the other interleaving. *)
Lemma send_error_seen_before_select :
  SendRawTransaction true (set_rawTxStream (Some broken) fresh_client) blob
    = Some (Return (single_error EOF)).
Proof. reflexivity. Qed.

(** An encoding failure ends a send before anything touches the stream:
    the result does not depend on the client's streams or on scheduling.
    [SendTransaction] wraps the error, [SendTransactionSequence] returns
    the first one as it is. *)
Theorem encode_error_precedes_io Sender HashOf (send_first : bool)
    (c : Client) :
  (forall tx e,
      TxToProto Sender HashOf tx = inr e ->
      SendTransaction Sender HashOf send_first c tx =
        Some (Return (""%string, 0, Some (Wrapped "converting to protobuf" e)))) /\
  (forall transactions e,
      encode_all Sender HashOf transactions = inr e ->
      SendTransactionSequence Sender HashOf send_first c transactions =
        Some (Return ([], 0, Some e))).
Proof.
  split.
  - intros tx e H. unfold SendTransaction. now rewrite H.
  - intros txs e H. unfold SendTransactionSequence. now rewrite H.
Qed.

(** A transaction declaring chain id 5, on a client without streams. *)
Lemma encode_error_precedes_io_witness :
  SendTransaction sample_Sender sample_Hash true fresh_client
                  (dynamic_fee_on 5)
  = Some (Return (""%string, 0,
                  Some (Wrapped "converting to protobuf" ErrInvalidChainId))) /\
  SendTransactionSequence sample_Sender sample_Hash true fresh_client
                          [legacy_transfer; dynamic_fee_on 5]
  = Some (Return ([], 0, Some ErrInvalidChainId)).
Proof.
  destruct (encode_error_precedes_io sample_Sender sample_Hash true
              fresh_client) as [H1 H2].
  split.
  - exact (H1 (dynamic_fee_on 5) ErrInvalidChainId eq_refl).
  - exact (H2 [legacy_transfer; dynamic_fee_on 5] ErrInvalidChainId eq_refl).
Defined.

End CorrelatorFacts.

(** ** [Connect] *)

Module ConnectionFacts.
Import Go ClientModel Connection ConnectionSpec Correlator Samples.

Ltac by_class Hj :=
  cbn in Hj; repeat (destruct Hj as [<- | Hj]); try contradiction.

Ltac stream_goal :=
  cbn;
  repeat match goal with H : _ = inl _ |- _ => rewrite H end;
  cbn;
  first [ reflexivity
        | split; [eexists; split; reflexivity | reflexivity] ].

Ltac found_failure :=
  unfold first_failure, open_error;
  repeat match goal with H : _ = inr _ |- _ => rewrite H end;
  split; [split; [reflexivity | intros j Hj; by_class Hj; stream_goal]|];
  split; [reflexivity|]; split; [reflexivity|];
  split; [intros j Hj; by_class Hj; stream_goal|];
  split; [reflexivity|];
  split; [intros j Hj; by_class Hj; reflexivity | reflexivity].

(** C1, as amended.  When the dial succeeds and one of the four
    stream-opening calls fails, [Connect] returns the error of the first
    call that fails and opens no stream after it; it undoes nothing:
    every stream opened before the failing one stays open and stored in
    its field of the client, which can send on it, the field of the
    failing class is [nil], the fields of the later classes are as they
    were, and the connection stays stored. *)
Theorem Connect_failure_keeps_earlier_streams
    (net : Transport) (c : Client) (cn : ClientConn) :
  DialContext net (target c) = inl cn ->
  some_stream_fails net c ->
  exists k e,
    first_failure net (key c) k e /\
    err (Connect net c) = Some e /\
    opened (Connect net c) = before k /\
    (forall j, In j (before k) ->
       holds_opened net (key c) (after (Connect net c)) j /\
       usable (after (Connect net c)) j = true) /\
    usable (after (Connect net c)) k = false /\
    (forall j, In j (later k) -> field_kept c (after (Connect net c)) j) /\
    conn (after (Connect net c)) = Some cn.
Proof.
  intros Hdial Hfail. unfold Connect. rewrite Hdial. cbn.
  destruct (open_SendTransaction net (key c)) as [s1|e1] eqn:H1;
    [|exists TxClass, e1; found_failure].
  destruct (open_SendRawTransaction net (key c)) as [s2|e2] eqn:H2;
    [|exists RawTxClass, e2; found_failure].
  destruct (open_SendTransactionSequence net (key c)) as [s3|e3] eqn:H3;
    [|exists TxSeqClass, e3; found_failure].
  destruct (open_SendRawTransactionSequence net (key c)) as [s4|e4] eqn:H4;
    [|exists RawTxSeqClass, e4; found_failure].
  exfalso. unfold some_stream_fails in Hfail.
  destruct Hfail as [[e H]|[[e H]|[[e H]|[e H]]]]; congruence.
Qed.

(** On the transport whose third stream fails to open. *)
Lemma Connect_failure_keeps_earlier_streams_witness :
  exists k e,
    err (Connect third_stream_fails fresh_client) = Some e /\
    opened (Connect third_stream_fails fresh_client) = before k /\
    usable (after (Connect third_stream_fails fresh_client)) k = false.
Proof.
  destruct (Connect_failure_keeps_earlier_streams
              third_stream_fails fresh_client _ eq_refl
              (or_intror (or_intror (or_introl
                 (ex_intro _ (Status 14) eq_refl)))))
    as (k & e & _ & Herr & Hopened & _ & Hk & _).
  exists k, e. exact (conj Herr (conj Hopened Hk)).
Defined.

(** C1 as stated fails: when the third stream fails to open, [Connect]
    returns the error and leaves the first two streams open and stored
    in the client, which sends on them. *)
Lemma Connect_failure_leaves_usable_streams :
  let r := Connect third_stream_fails fresh_client in
  some_stream_fails third_stream_fails fresh_client /\
  err r = Some (Status 14) /\
  opened r = [TxClass; RawTxClass] /\
  usable (after r) TxClass = true /\
  usable (after r) RawTxClass = true /\
  SendRawTransaction false (after r) blob
    = Some (Return ("0xbb"%string, 1701, None)).
Proof.
  cbv zeta. split.
  - right. right. left. exists (Status 14). reflexivity.
  - repeat split.
Qed.

(** When the dial and the four stream-opening calls succeed, [Connect]
    returns no error and leaves the four streams it opened, in the order
    single, raw, sequence, raw sequence, stored in the client. *)
Theorem Connect_success_opens_all (net : Transport) (c : Client)
    (cn : ClientConn) :
  DialContext net (target c) = inl cn ->
  (forall k, open_error net (key c) k = None) ->
  err (Connect net c) = None /\
  opened (Connect net c) = [TxClass; RawTxClass; TxSeqClass; RawTxSeqClass] /\
  (forall k, holds_opened net (key c) (after (Connect net c)) k /\
             usable (after (Connect net c)) k = true) /\
  conn (after (Connect net c)) = Some cn /\
  client (after (Connect net c)) = Some (NewAPIClient net cn).
Proof.
  intros Hdial Hok. unfold Connect. rewrite Hdial. cbn.
  pose proof (Hok TxClass) as H1. pose proof (Hok RawTxClass) as H2.
  pose proof (Hok TxSeqClass) as H3. pose proof (Hok RawTxSeqClass) as H4.
  unfold open_error, failure in H1, H2, H3, H4.
  destruct (open_SendTransaction net (key c)) as [s1|] eqn:E1;
    [|discriminate H1].
  destruct (open_SendRawTransaction net (key c)) as [s2|] eqn:E2;
    [|discriminate H2].
  destruct (open_SendTransactionSequence net (key c)) as [s3|] eqn:E3;
    [|discriminate H3].
  destruct (open_SendRawTransactionSequence net (key c)) as [s4|] eqn:E4;
    [|discriminate H4].
  cbn. repeat split; destruct k; cbn; rewrite ?E1, ?E2, ?E3, ?E4; eauto.
Qed.

Lemma Connect_success_opens_all_witness :
  err (Connect all_streams_open fresh_client) = None /\
  opened (Connect all_streams_open fresh_client)
    = [TxClass; RawTxClass; TxSeqClass; RawTxSeqClass].
Proof.
  destruct (Connect_success_opens_all all_streams_open fresh_client _ eq_refl)
    as (Herr & Hopened & _).
  - intros k. destruct k; reflexivity.
  - exact (conj Herr Hopened).
Defined.

End ConnectionFacts.

(** ** Subscriptions *)

Module SubscriptionFacts.
Import Go Codec ClientModel Subscription Samples.

Lemma count_close_app {Event} (l1 l2 : list (chan_op Event)) :
  count_close (l1 ++ l2) = (count_close l1 + count_close l2)%nat.
Proof.
  induction l1 as [|[v|] l1 IH]; cbn; [reflexivity|exact IH|].
  now rewrite IH.
Qed.

Lemma count_send_app {Event} (l1 l2 : list (chan_op Event)) :
  count_send (l1 ++ l2) = (count_send l1 + count_send l2)%nat.
Proof.
  induction l1 as [|[v|] l1 IH]; cbn; [reflexivity| |exact IH].
  now rewrite IH.
Qed.

(** Pushes followed by at most one close: no write after close. *)
Lemma no_write_after_final_close {Event} (sends tail : list (chan_op Event)) :
  count_close sends = 0%nat -> tail = [] \/ tail = [ChClose] ->
  write_after_close (sends ++ tail) = false.
Proof.
  intros Hs Ht. induction sends as [|[v|] sends IH]; cbn in *.
  - destruct Ht as [-> | ->]; reflexivity.
  - now apply IH.
  - discriminate Hs.
Qed.

Lemma deliveries_from_all_sends {Proto Event} (decode : Proto -> Event)
    (res : ServerStream Proto) (k i : nat) :
  count_close (deliveries_from decode res i k) = 0%nat.
Proof.
  unfold deliveries_from. revert i.
  induction k as [|k IH]; intros i; cbn; [reflexivity|].
  rewrite count_close_app, IH.
  destruct (recv res i); reflexivity.
Qed.

Lemma deliveries_from_step {Proto Event} (decode : Proto -> Event)
    (res : ServerStream Proto) (i k : nat) (m : Proto) :
  recv res i = inl m ->
  deliveries_from decode res i (S k) =
    ChSend (decode m) :: deliveries_from decode res (S i) k.
Proof. intros H. unfold deliveries_from. cbn. now rewrite H. Qed.

Section PumpFacts.
Context {Proto Event : Type}.
Variable decode : Proto -> Event.
Variable res : ServerStream Proto.
Variable ready : nat -> bool.

Local Abbreviation pump := (pump decode res ready).

(** The loop only appends: pushes, then a close exactly when it
    returns. *)
Lemma pump_appends fuel :
  forall i log,
  exists sends,
    count_close sends = 0%nat /\
    snd (pump fuel i log) =
      log ++ sends ++ match fst (pump fuel i log) with
                      | Returned _ => [ChClose]
                      | _ => []
                      end.
Proof.
  induction fuel as [|fuel IH]; intros i log; cbn.
  - exists []. split; [reflexivity|]. now rewrite !app_nil_r.
  - destruct (recv res i) as [m|e]; cbn.
    + destruct (ready i); cbn.
      * destruct (IH (S i) (log ++ [ChSend (decode m)])) as (sends & Hs & Hlog).
        exists (ChSend (decode m) :: sends). split; [exact Hs|].
        rewrite Hlog, <- app_assoc. reflexivity.
      * exists []. split; [reflexivity|]. now rewrite !app_nil_r.
    + exists []. split; reflexivity.
Qed.

(** The loop returns only the error of a [Recv], having pushed the
    messages before it, in order, and closed the channel. *)
Lemma pump_returned fuel :
  forall i log e,
    fst (pump fuel i log) = Returned e ->
    exists k,
      recv res (i + k) = inr e /\
      (forall j, (j < k)%nat -> exists m, recv res (i + j) = inl m) /\
      snd (pump fuel i log) =
        log ++ deliveries_from decode res i k ++ [ChClose].
Proof.
  induction fuel as [|fuel IH]; intros i log e; cbn; [discriminate|].
  destruct (recv res i) as [m|e0] eqn:Hr; cbn.
  - destruct (ready i); cbn; [|discriminate].
    intros H. destruct (IH _ _ _ H) as (k & Hend & Hmsgs & Hlog).
    exists (S k). split; [|split].
    + now rewrite Nat.add_succ_r.
    + intros [|j] Hj.
      * rewrite Nat.add_0_r. eauto.
      * rewrite Nat.add_succ_r. apply Hmsgs. lia.
    + rewrite Hlog, (deliveries_from_step decode res i k m Hr).
      now rewrite <- app_assoc.
  - intros H. injection H as <-. exists 0%nat.
    rewrite Nat.add_0_r. split; [exact Hr|]. split; [lia|reflexivity].
Qed.

(** When the stream ends [k] messages on and every push before finds
    a receiver, [k + 1] iterations close the channel and return. *)
Lemma pump_reaches_end k :
  forall i log e fuel,
    recv res (i + k) = inr e ->
    (forall j, (j < k)%nat -> exists m, recv res (i + j) = inl m) ->
    (forall j, (j < k)%nat -> ready (i + j) = true) ->
    (k < fuel)%nat ->
    pump fuel i log =
      (Returned e, log ++ deliveries_from decode res i k ++ [ChClose]).
Proof.
  induction k as [|k IH]; intros i log e fuel Hend Hmsgs Hready Hfuel;
    (destruct fuel as [|fuel]; [lia|]); cbn [Subscription.pump].
  - rewrite Nat.add_0_r in Hend. rewrite Hend. reflexivity.
  - destruct (Hmsgs 0%nat ltac:(lia)) as [m Hm].
    rewrite Nat.add_0_r in Hm. rewrite Hm.
    pose proof (Hready 0%nat ltac:(lia)) as Hr0.
    rewrite Nat.add_0_r in Hr0. rewrite Hr0.
    rewrite (IH (S i) _ e fuel).
    + rewrite (deliveries_from_step decode res i k m Hm).
      now rewrite <- app_assoc.
    + now rewrite Nat.add_succ_r in Hend.
    + intros j Hj. specialize (Hmsgs (S j) ltac:(lia)).
      now rewrite Nat.add_succ_r in Hmsgs.
    + intros j Hj. specialize (Hready (S j) ltac:(lia)).
      now rewrite Nat.add_succ_r in Hready.
    + lia.
Qed.
End PumpFacts.

(** The shared body keeps the life cycle of the delivery channel. *)
Lemma subscribe_lifecycle {Proto Event} (decode : Proto -> Event)
    (label : string) (opened : ServerStream Proto + error) :
  channel_lifecycle decode label opened (subscribe decode label opened).
Proof.
  unfold channel_lifecycle, subscribe.
  destruct opened as [res|e]; [|reflexivity].
  split.
  - intros ready fuel.
    destruct (pump_appends decode res ready fuel 0 []) as (sends & Hs & Hlog).
    cbn [app] in Hlog.
    pose proof (pump_returned decode res ready fuel 0 []) as Hret.
    destruct (pump decode res ready fuel 0 []) as [st log].
    cbn [fst snd] in *. subst log.
    assert (Hcount : count_close
              (sends ++ match st with Returned _ => [ChClose] | _ => [] end)
            = match st with Returned _ => 1%nat | _ => 0%nat end).
    { rewrite count_close_app, Hs. destruct st; reflexivity. }
    split; [rewrite Hcount; destruct st; lia|].
    split; [apply no_write_after_final_close;
            [exact Hs|destruct st; auto]|].
    split.
    + rewrite Hcount. destruct st; split; intros H;
        try discriminate H; try (destruct H as [e H]; discriminate H);
        eauto.
    + intros e He. destruct (Hret e He) as (n & Hend & Hmsgs & Hlog).
      exists n. split; [split; assumption|]. exact Hlog.
  - intros ready n e [Hend Hmsgs] Hready fuel Hfuel.
    now apply (pump_reaches_end decode res ready n 0 [] e fuel).
Qed.



End SubscriptionFacts.

(** ** The codec, further *)

Module CodecMore.
Import Go GoEth Codec CodecSpec CodecSpecMore GoFacts CodecFacts.
Import Samples MoreSamples PricedSamples.

Lemma int64_range (z : Z) : - 2 ^ 63 <= int64 z < 2 ^ 63.
Proof.
  unfold int64. cbv zeta.
  pose proof (Z.mod_pos_bound z (2 ^ 64) ltac:(lia)) as Hm.
  destruct (Z.ltb_spec (z mod 2 ^ 64) (2 ^ 63)); lia.
Qed.

Lemma through_uint64_fixed (x : Z) :
  0 <= x -> through_uint64 x = x -> x < 2 ^ 63.
Proof.
  intros _ H. pose proof (int64_range (big_Uint64 x)) as Hr.
  unfold through_uint64, big_NewInt in H. lia.
Qed.

Lemma through_uint32_fixed (x : Z) :
  0 <= x -> through_uint32 x = x -> x < 2 ^ 32.
Proof.
  intros _ H. unfold through_uint32, big_NewInt, int64, uint32 in H.
  cbv zeta in H.
  pose proof (Z.mod_pos_bound (big_Uint64 x) (2 ^ 32) ltac:(lia)) as Hm.
  rewrite (Z.mod_small (big_Uint64 x mod 2 ^ 32) (2 ^ 64)) in H by lia.
  destruct (Z.ltb_spec (big_Uint64 x mod 2 ^ 32) (2 ^ 63)); lia.
Qed.

(** Decoding an encoding, with no bound on the magnitudes. *)
Lemma decode_encode Sender HashOf tx proto :
  (forall a, GoEth.To tx = Some a -> valid_address a) ->
  TxToProto Sender HashOf tx = inl proto ->
  ProtoToTx proto = Return (Some (after_wire tx)).
Proof.
  unfold TxToProto. cbv zeta.
  destruct (Sender (NewLondonSigner 1) tx) as [sender|e];
    [|intros _ Henc; discriminate Henc].
  destruct (RawSignatureValues tx) as [[v r] s] eqn:Hvrs.
  intros Hto Henc. injection Henc as <-. unfold ProtoToTx. cbv zeta.
  cbn [eth.To eth.Type_ eth.Nonce eth.GasPrice eth.Gas eth.Value eth.Input
       eth.V eth.R eth.S eth.ChainId eth.MaxFee eth.PriorityFee].
  rewrite uint32_tag, !big_SetBytes_Bytes.
  destruct (GoEth.To tx) as [a|] eqn:Ea.
  - pose proof (Hto a eq_refl) as Ha.
    assert (Hlen : (0 <? len a) = true).
    { unfold valid_address, AddressLength in Ha. rewrite Ha. reflexivity. }
    rewrite Hlen, (slice_to_Address_valid a Ha).
    destruct tx as [x|x|x]; destruct x; cbn in *;
      injection Hvrs as <- <- <-; subst; reflexivity.
  - cbn [len length Z.of_nat Z.ltb Z.compare].
    destruct tx as [x|x|x]; destruct x; cbn in *;
      injection Hvrs as <- <- <-; subst; reflexivity.
Qed.

(** Whatever its magnitudes, a transaction whose recipient, when present,
    is a 20-byte address and whose encoding succeeds decodes from that
    encoding: [ProtoToTx] neither panics nor returns [nil] on it.  The
    decoded transaction has the same type, nonce, gas limit and input;
    its value, [R] and [S] are the magnitudes of the original ones, its
    [V] and fee fields have passed through [uint64] and [int64], its chain
    id through [uint32], its access list is empty, and its recipient is
    never absent. *)
Theorem decode_of_encode_always_returns Sender HashOf tx proto :
  (forall a, GoEth.To tx = Some a -> valid_address a) ->
  TxToProto Sender HashOf tx = inl proto ->
  ProtoToTx proto = Return (Some (after_wire tx)) /\
  GoEth.Type_ (after_wire tx) = GoEth.Type_ tx /\
  GoEth.Nonce (after_wire tx) = GoEth.Nonce tx /\
  GoEth.Gas (after_wire tx) = GoEth.Gas tx /\
  GoEth.Data (after_wire tx) = GoEth.Data tx /\
  GoEth.Value (after_wire tx) = Z.abs (GoEth.Value tx) /\
  GoEth.To (after_wire tx) <> None /\
  AccessList_of (after_wire tx) = [].
Proof.
  intros Hto Henc. split; [now apply (decode_encode Sender HashOf)|].
  destruct tx as [x|x|x]; cbn; repeat split;
    match goal with |- recipient_after ?t <> None =>
      destruct t; discriminate end.
Qed.

(** The transfer with a gas price of [2^63] decodes with a negative one. *)
Lemma decode_of_encode_always_returns_witness :
  exists proto tx',
    TxToProto sample_Sender sample_Hash overpriced_transfer = inl proto /\
    ProtoToTx proto = Return (Some tx') /\
    GoEth.GasPrice tx' = - 2 ^ 63.
Proof.
  eexists. exists (after_wire overpriced_transfer).
  split; [reflexivity|]. split; [|reflexivity].
  refine (proj1 (decode_of_encode_always_returns sample_Sender sample_Hash
                   overpriced_transfer _ _ eq_refl)).
  intros a Ha. injection Ha as <-. reflexivity.
Defined.

(** The bounds of the exact round trip are sharp.  For a transaction
    with non-negative big integers whose encoding succeeds, decoding the
    encoding gives the transaction back (less its access list) exactly
    when its recipient is present, its [V] and fee fields are below
    [2^63] and its chain id (access-list and dynamic-fee types) is below
    [2^32]. *)
Theorem roundtrip_exact_iff_in_range Sender HashOf tx proto :
  signed_values tx ->
  TxToProto Sender HashOf tx = inl proto ->
  (ProtoToTx proto = Return (Some (without_access_list tx)) <->
   exact_on_wire tx).
Proof.
  intros (Hto & Hval & Hsig & Hfee) Henc. split.
  - rewrite (decode_encode Sender HashOf tx proto Hto Henc).
    clear Henc proto.
    intros H. injection H as H. unfold exact_on_wire.
    destruct tx as [x|x|x]; destruct x as [];
      cbn [after_wire without_access_list GoEth.To GoEth.Value
           RawSignatureValues LegacyTx.Nonce LegacyTx.GasPrice LegacyTx.Gas
           LegacyTx.To LegacyTx.Value LegacyTx.Data LegacyTx.V LegacyTx.R
           LegacyTx.S AccessListTx.ChainID AccessListTx.Nonce
           AccessListTx.GasPrice AccessListTx.Gas AccessListTx.To
           AccessListTx.Value AccessListTx.Data AccessListTx.AccessList
           AccessListTx.V AccessListTx.R AccessListTx.S DynamicFeeTx.ChainID
           DynamicFeeTx.Nonce DynamicFeeTx.GasTipCap DynamicFeeTx.GasFeeCap
           DynamicFeeTx.Gas DynamicFeeTx.To DynamicFeeTx.Value
           DynamicFeeTx.Data DynamicFeeTx.AccessList DynamicFeeTx.V
           DynamicFeeTx.R DynamicFeeTx.S] in *;
      injection H as Hfields;
      repeat match goal with
             | H : _ /\ _ |- _ => destruct H
             | H : recipient_after ?t = ?t |- _ =>
                 destruct t; [clear H|discriminate H]
             | H : through_uint64 ?x = ?x |- _ =>
                 apply through_uint64_fixed in H; [|assumption]
             | H : through_uint32 ?x = ?x |- _ =>
                 apply through_uint32_fixed in H; [|assumption]
             end;
      (split; [eexists; split; [reflexivity|now apply Hto]|]);
      repeat split; lia.
  - intros Hexact. now apply (roundtrip_exact Sender HashOf).
Qed.

Lemma overpriced_transfer_signed : signed_values overpriced_transfer.
Proof.
  unfold signed_values. cbn.
  split; [intros a Ha; injection Ha as <-; reflexivity|].
  repeat split; lia.
Qed.

(** At a gas price of [2^63] the trip is not exact. *)
Lemma roundtrip_exact_iff_in_range_witness :
  exists proto,
    TxToProto sample_Sender sample_Hash overpriced_transfer = inl proto /\
    (ProtoToTx proto = Return (Some (without_access_list overpriced_transfer))
     <-> exact_on_wire overpriced_transfer).
Proof.
  eexists. split; [reflexivity|].
  exact (roundtrip_exact_iff_in_range sample_Sender sample_Hash
           overpriced_transfer _ overpriced_transfer_signed eq_refl).
Defined.

(** The length of the recipient field decides what [ProtoToTx] does with
    it, for every type tag: 1 to 19 bytes make it panic in the conversion
    to an address; 20 bytes or more are cut to the first 20, which is the
    recipient of the transaction returned for a known tag. *)
Theorem ProtoToTx_recipient_length (proto : eth.Transaction) :
  (0 < len (eth.To proto) < AddressLength ->
   ProtoToTx proto =
     Panic (SliceToArrayTooShort (len (eth.To proto)) AddressLength)) /\
  (AddressLength <= len (eth.To proto) ->
   known_tag (eth.Type_ proto) = true ->
   valid_address (firstn 20 (eth.To proto)) /\
   exists tx, ProtoToTx proto = Return (Some tx) /\
              GoEth.To tx = Some (firstn 20 (eth.To proto))).
Proof.
  unfold ProtoToTx, slice_to_Address, AddressLength. cbv zeta. split.
  - intros [Hpos Hshort].
    destruct (Z.ltb_spec 0 (len (eth.To proto))); [|lia].
    destruct (Z.ltb_spec (len (eth.To proto)) 20); [reflexivity|lia].
  - intros Hlong Htag. split.
    + unfold valid_address, AddressLength, len in *.
      rewrite length_firstn. lia.
    + destruct (Z.ltb_spec 0 (len (eth.To proto))); [|lia].
      destruct (Z.ltb_spec (len (eth.To proto)) 20); [lia|].
      destruct (eth.Type_ proto) as [|[q|q|]|q]; try destruct q;
        try discriminate Htag; eexists; split; reflexivity.
Qed.

(** One byte panics; 21 bytes lose the last. *)
Lemma ProtoToTx_recipient_length_witness :
  ProtoToTx short_recipient_wire = Panic (SliceToArrayTooShort 1 20) /\
  exists tx, ProtoToTx long_recipient_wire = Return (Some tx) /\
             GoEth.To tx = Some (repeat x22 20).
Proof.
  split.
  - exact (proj1 (ProtoToTx_recipient_length short_recipient_wire)
                 (conj eq_refl eq_refl)).
  - exact (proj2 (proj2 (ProtoToTx_recipient_length long_recipient_wire)
                        ltac:(discriminate) eq_refl)).
Defined.

(** C2 as stated fails, at each of the points the amended statement
    leaves out.  A contract creation is encoded and decodes to a
    transaction addressed to the zero address.  A transfer with a present
    recipient is encoded and decodes with another gas price when its gas
    price is [2^64] (sent as 0), [2^63] (read back as [-2^63]) or
    negative ([-3] comes back as 3). *)
Lemma roundtrip_fails_outside_exact_range :
  (exists proto tx',
      TxToProto sample_Sender sample_Hash contract_creation = inl proto /\
      ProtoToTx proto = Return (Some tx') /\
      GoEth.To contract_creation = None /\
      GoEth.To tx' = Some zero_address) /\
  (exists proto tx',
      TxToProto sample_Sender sample_Hash (transfer_priced (2 ^ 64))
        = inl proto /\
      ProtoToTx proto = Return (Some tx') /\
      GoEth.GasPrice tx' = 0 /\
      GoEth.GasPrice tx' <> GoEth.GasPrice (transfer_priced (2 ^ 64))) /\
  (exists proto tx',
      TxToProto sample_Sender sample_Hash (transfer_priced (2 ^ 63))
        = inl proto /\
      ProtoToTx proto = Return (Some tx') /\
      GoEth.GasPrice tx' = - 2 ^ 63 /\
      GoEth.GasPrice tx' <> GoEth.GasPrice (transfer_priced (2 ^ 63))) /\
  (exists proto tx',
      TxToProto sample_Sender sample_Hash (transfer_priced (- 3))
        = inl proto /\
      ProtoToTx proto = Return (Some tx') /\
      GoEth.GasPrice tx' = 3 /\
      GoEth.GasPrice tx' <> GoEth.GasPrice (transfer_priced (- 3))).
Proof.
  repeat split;
    (eexists; eexists; split; [reflexivity|]; split; [reflexivity|];
     split; [reflexivity|]; try reflexivity; discriminate).
Qed.

End CodecMore.

(** ** The send operations, further *)

Module CorrelatorMore.
Import Go GoEth Codec ClientModel Correlator CorrelatorFacts.
Import Samples StreamSamples.

(** One single-transaction call whose write succeeds and whose read
    yields [res] ends, in every interleaving, with [res]. *)
Lemma single_call_ok {Req} (s : Stream Req api.TransactionResponse)
    (msg : Req) (res : api.TransactionResponse) :
  Send s msg = None -> Recv s = Some (inl res) ->
  (forall b, call s msg single_error single_response b
             = Some (single_response res)) /\
  (forall o, call_ends s msg single_error single_response o ->
             o = single_response res).
Proof.
  intros Hs Hr.
  assert (Hcall : forall b, call s msg single_error single_response b
                            = Some (single_response res)).
  { intros b. rewrite call_send_ok by exact Hs. unfold call. now rewrite Hr. }
  split; [exact Hcall|].
  intros o Ho. apply call_adequate in Ho. destruct Ho as [b Hb].
  rewrite Hcall in Hb. now injection Hb as <-.
Qed.

(** When its write and its read both succeed, [SendTransaction] (after
    a successful encoding) and [SendRawTransaction] return the hash and
    the timestamp of the response received, with no error, in every
    interleaving of the write unit and the caller. *)
Theorem single_send_returns_response Sender HashOf
    (c : Client) (send_first : bool) (res : api.TransactionResponse) :
  (forall s tx proto,
      txStream c = Some s ->
      TxToProto Sender HashOf tx = inl proto ->
      Send s proto = None ->
      Recv s = Some (inl res) ->
      SendTransaction Sender HashOf send_first c tx =
        Some (Return (api.Hash res, api.Timestamp res, None)) /\
      (forall o, call_ends s proto single_error single_response o ->
                 o = Return (api.Hash res, api.Timestamp res, None))) /\
  (forall s rawTx,
      rawTxStream c = Some s ->
      Send s {| api.RawTx := rawTx |} = None ->
      Recv s = Some (inl res) ->
      SendRawTransaction send_first c rawTx =
        Some (Return (api.Hash res, api.Timestamp res, None)) /\
      (forall o,
          call_ends s {| api.RawTx := rawTx |} single_error single_response o ->
          o = Return (api.Hash res, api.Timestamp res, None))).
Proof.
  split.
  - intros s tx proto Hc Henc Hs Hr.
    destruct (single_call_ok s proto res Hs Hr) as [Hcall Hends].
    split; [|exact Hends].
    unfold SendTransaction, on_stream. rewrite Henc, Hc. apply Hcall.
  - intros s rawTx Hc Hs Hr.
    destruct (single_call_ok s {| api.RawTx := rawTx |} res Hs Hr)
      as [Hcall Hends].
    split; [|exact Hends].
    unfold SendRawTransaction, on_stream. rewrite Hc. apply Hcall.
Qed.

Lemma single_send_returns_response_witness :
  SendRawTransaction true (set_rawTxStream (Some raw_stream_ok) fresh_client)
                     blob
  = Some (Return ("0xbb"%string, 1701, None)) /\
  SendTransaction sample_Sender sample_Hash false
                  (set_txStream (Some tx_stream_ok) fresh_client)
                  legacy_transfer
  = Some (Return ("0xaa"%string, 1700, None)).
Proof.
  split.
  - exact (proj1 (proj2 (single_send_returns_response
                    sample_Sender sample_Hash
                    (set_rawTxStream (Some raw_stream_ok) fresh_client)
                    true item_b)
                  raw_stream_ok blob eq_refl eq_refl eq_refl)).
  - exact (proj1 (proj1 (single_send_returns_response
                    sample_Sender sample_Hash
                    (set_txStream (Some tx_stream_ok) fresh_client)
                    false item_a)
                  tx_stream_ok legacy_transfer _ eq_refl eq_refl eq_refl
                  eq_refl)).
Defined.

(** The result of a call depends on the scheduling of its two units only
    when the write fails.  When the write succeeds all interleavings that
    end do so with the same outcome; when it fails with [e], the
    outcomes are the error [e] (seen at the [select]) and whatever the
    read gives once the caller is past the [select], and no other. *)
Theorem call_outcomes_by_write_result {Req Resp R}
    (s : Stream Req Resp) (msg : Req)
    (on_error : error -> R) (on_response : Resp -> outcome R) :
  (Send s msg = None ->
   forall o1 o2,
     call_ends s msg on_error on_response o1 ->
     call_ends s msg on_error on_response o2 -> o1 = o2) /\
  (forall e, Send s msg = Some e ->
     forall o,
       call_ends s msg on_error on_response o <->
       o = Return (on_error e) \/
       call s msg on_error on_response false = Some o).
Proof.
  split.
  - intros Hs o1 o2 H1 H2.
    apply call_adequate in H1. apply call_adequate in H2.
    destruct H1 as [b1 H1]. destruct H2 as [b2 H2].
    rewrite call_send_ok in H1, H2 by exact Hs. congruence.
  - intros e Hs o. rewrite call_adequate. split.
    + intros [[|] Hb].
      * left. rewrite (call_send_error_first s msg on_error on_response e Hs)
          in Hb. now injection Hb as <-.
      * right. exact Hb.
    + intros [-> | Hb].
      * exists true. now apply call_send_error_first.
      * exists false. exact Hb.
Qed.

(** On the broken stream both errors are outcomes. *)
Lemma call_outcomes_by_write_result_witness :
  call_ends broken {| api.RawTx := blob |} single_error single_response
            (Return (single_error EOF)) /\
  call_ends broken {| api.RawTx := blob |} single_error single_response
            (Return (single_error (Status 14))).
Proof.
  split;
    apply (proj2 (proj2 (call_outcomes_by_write_result broken
                           {| api.RawTx := blob |} single_error
                           single_response) EOF eq_refl _));
    [left|right]; reflexivity.
Defined.

(** A call whose response never arrives never returns: there is no
    timeout on the read.  When the write succeeded no interleaving ends;
    when the write failed the call ends only if the write error is on
    [errc] at the [select], and then with that error. *)
Theorem call_without_response_blocks {Req Resp R}
    (s : Stream Req Resp) (msg : Req)
    (on_error : error -> R) (on_response : Resp -> outcome R) :
  Recv s = None ->
  (Send s msg = None ->
   (forall o, ~ call_ends s msg on_error on_response o) /\
   (forall b, call s msg on_error on_response b = None)) /\
  (forall e, Send s msg = Some e ->
     (forall o, call_ends s msg on_error on_response o ->
                o = Return (on_error e)) /\
     call s msg on_error on_response false = None).
Proof.
  intros Hr.
  assert (Hfalse : call s msg on_error on_response false = None)
    by (unfold call; now rewrite Hr).
  split.
  - intros Hs.
    assert (Hall : forall b, call s msg on_error on_response b = None)
      by (intros b; now rewrite call_send_ok).
    split; [|exact Hall].
    intros o Ho. apply call_adequate in Ho. destruct Ho as [b Hb].
    rewrite Hall in Hb. discriminate Hb.
  - intros e Hs. split; [|exact Hfalse].
    intros o Ho. apply call_adequate in Ho. destruct Ho as [[|] Hb].
    + rewrite (call_send_error_first s msg on_error on_response e Hs) in Hb.
      now injection Hb as <-.
    + rewrite Hfalse in Hb. discriminate Hb.
Qed.

(** [SendRawTransaction] on the silent stream, under either schedule. *)
Lemma call_without_response_blocks_witness :
  SendRawTransaction true (set_rawTxStream (Some silent) fresh_client) blob
    = None /\
  SendRawTransaction false
    (set_rawTxStream (Some silent_broken) fresh_client) blob = None.
Proof.
  split.
  - exact (proj2 (proj1 (call_without_response_blocks silent
                           {| api.RawTx := blob |} single_error
                           single_response eq_refl) eq_refl) true).
  - exact (proj2 (proj2 (call_without_response_blocks silent_broken
                           {| api.RawTx := blob |} single_error
                           single_response eq_refl) EOF eq_refl)).
Defined.

(** [SendTransactionSequence] encodes every transaction before it writes
    anything.  When all encode, the message written carries their
    encodings, one per transaction, in input order; otherwise the call
    returns, with no hashes and a zero timestamp, the error of the first
    transaction that does not encode, whatever the client and the
    scheduling. *)
Theorem sequence_encodes_in_input_order Sender HashOf
    (transactions : list GoEth.Transaction) :
  match encode_all Sender HashOf transactions with
  | inl protoSeq =>
      Forall2 (fun tx proto => TxToProto Sender HashOf tx = inl proto)
              transactions protoSeq /\
      (forall send_first c s,
          txSeqStream c = Some s ->
          SendTransactionSequence Sender HashOf send_first c transactions =
            call s {| api.Sequence := protoSeq |} sequence_error
                 sequence_response send_first)
  | inr e =>
      (exists encoded tx rest,
          transactions = encoded ++ tx :: rest /\
          Forall (fun t => exists proto, TxToProto Sender HashOf t = inl proto)
                 encoded /\
          TxToProto Sender HashOf tx = inr e) /\
      (forall send_first c,
          SendTransactionSequence Sender HashOf send_first c transactions =
            Some (Return ([], 0, Some e)))
  end.
Proof.
  assert (Hlist :
    match encode_all Sender HashOf transactions with
    | inl protoSeq =>
        Forall2 (fun tx proto => TxToProto Sender HashOf tx = inl proto)
                transactions protoSeq
    | inr e =>
        exists encoded tx rest,
          transactions = encoded ++ tx :: rest /\
          Forall (fun t => exists proto, TxToProto Sender HashOf t = inl proto)
                 encoded /\
          TxToProto Sender HashOf tx = inr e
    end).
  { induction transactions as [|tx txs IH]; cbn [encode_all].
    - constructor.
    - destruct (TxToProto Sender HashOf tx) as [proto|e] eqn:Htx.
      + destruct (encode_all Sender HashOf txs) as [protos|e].
        * constructor; assumption.
        * destruct IH as (encoded & bad & rest & -> & Hall & Hbad).
          exists (tx :: encoded), bad, rest. split; [reflexivity|].
          split; [constructor; eauto|exact Hbad].
      + exists [], tx, txs. split; [reflexivity|]. split; [constructor|exact Htx]. }
  destruct (encode_all Sender HashOf transactions) as [protoSeq|e] eqn:Henc.
  - split; [exact Hlist|].
    intros send_first c s Hc. unfold SendTransactionSequence, on_stream.
    now rewrite Henc, Hc.
  - split; [exact Hlist|].
    intros send_first c. unfold SendTransactionSequence.
    now rewrite Henc.
Qed.

(** A transfer followed by a dynamic-fee transaction declaring chain
    id 5: the second does not encode, and the call returns its error on
    a client that has no stream at all. *)
Lemma sequence_encodes_in_input_order_witness :
  SendTransactionSequence sample_Sender sample_Hash true fresh_client
    [legacy_transfer; dynamic_fee_on 5]
  = Some (Return ([], 0, Some ErrInvalidChainId)).
Proof.
  exact (proj2 (sequence_encodes_in_input_order sample_Sender sample_Hash
                  [legacy_transfer; dynamic_fee_on 5]) true fresh_client).
Defined.

End CorrelatorMore.

(** ** [Connect] and [Close] together *)

Module ConnectionMore.
Import Go ClientModel Connection ConnectionSpec Closing.
Import Samples TeardownSamples.

(** [Connect] returns no error exactly when the dial and the four
    stream-opening calls all succeed.  When the dial fails it returns the
    dial error, opens nothing and leaves the client as it was.  It never
    changes the target or the API key. *)
Theorem Connect_succeeds_iff (net : Transport) (c : Client) :
  (err (Connect net c) = None <->
   (exists cn, DialContext net (target c) = inl cn) /\
   (forall k, open_error net (key c) k = None)) /\
  (forall e, DialContext net (target c) = inr e ->
     Connect net c = {| after := c; opened := []; err := Some e |}) /\
  target (after (Connect net c)) = target c /\
  key (after (Connect net c)) = key c.
Proof.
  unfold Connect, open_error, failure.
  destruct (DialContext net (target c)) as [cn|e0]; cbn.
  2:{ split; [|split; [|split; reflexivity]].
      - split; [discriminate|]. intros [[cn H] _]. discriminate H.
      - intros e H. now injection H as <-. }
  destruct (open_SendTransaction net (key c)) as [s1|e1] eqn:E1;
  [destruct (open_SendRawTransaction net (key c)) as [s2|e2] eqn:E2;
   [destruct (open_SendTransactionSequence net (key c)) as [s3|e3] eqn:E3;
    [destruct (open_SendRawTransactionSequence net (key c)) as [s4|e4] eqn:E4
    |]|]|];
    cbn; (split; [|split; [intros e H; discriminate H|split; reflexivity]]).
  - split; [|reflexivity]. intros _. split; [eauto|].
    intros k. destruct k; cbn; now rewrite ?E1, ?E2, ?E3, ?E4.
  - split; [discriminate|]. intros [_ H]. specialize (H RawTxSeqClass).
    cbn in H. rewrite ?E4 in H. discriminate H.
  - split; [discriminate|]. intros [_ H]. specialize (H TxSeqClass).
    cbn in H. rewrite ?E3 in H. discriminate H.
  - split; [discriminate|]. intros [_ H]. specialize (H RawTxClass).
    cbn in H. rewrite ?E2 in H. discriminate H.
  - split; [discriminate|]. intros [_ H]. specialize (H TxClass).
    cbn in H. rewrite ?E1 in H. discriminate H.
Qed.

(** After a successful [Connect], [Close] closes the send half of the
    four streams in the order single, raw, sequence, raw sequence, then
    the connection, and returns what closing the connection returned:
    the errors of the four [CloseSend] calls are dropped. *)
Theorem Close_after_Connect (net : Transport) (env : Teardown)
    (c : Client) (cn : ClientConn) :
  DialContext net (target c) = inl cn ->
  (forall k, open_error net (key c) k = None) ->
  Close env (after (Connect net c)) =
    ([ClosedSend TxClass (CloseSend env TxClass);
      ClosedSend RawTxClass (CloseSend env RawTxClass);
      ClosedSend TxSeqClass (CloseSend env TxSeqClass);
      ClosedSend RawTxSeqClass (CloseSend env RawTxSeqClass);
      ClosedConn (conn_Close env)],
     Return (conn_Close env)).
Proof.
  intros Hdial Hok. unfold Connect. rewrite Hdial. cbn.
  pose proof (Hok TxClass) as H1. pose proof (Hok RawTxClass) as H2.
  pose proof (Hok TxSeqClass) as H3. pose proof (Hok RawTxSeqClass) as H4.
  unfold open_error, failure in H1, H2, H3, H4.
  destruct (open_SendTransaction net (key c)); [|discriminate H1].
  destruct (open_SendRawTransaction net (key c)); [|discriminate H2].
  destruct (open_SendTransactionSequence net (key c)); [|discriminate H3].
  destruct (open_SendRawTransactionSequence net (key c)); [|discriminate H4].
  reflexivity.
Qed.

(** With every [CloseSend] failing, [Close] still returns [nil]. *)
Lemma Close_after_Connect_witness :
  snd (Close send_halves_fail (after (Connect all_streams_open fresh_client)))
  = Return None.
Proof.
  rewrite (Close_after_Connect all_streams_open send_halves_fail
             fresh_client _ eq_refl).
  - reflexivity.
  - intros k. destruct k; reflexivity.
Defined.

(** After a [Connect] that failed at a stream, [Close] panics: it closes
    the send half of the streams opened before the failing one, then
    calls [CloseSend] on the [nil] field of the failing class, and never
    closes the connection the dial opened. *)
Theorem Close_after_failed_Connect (net : Transport) (env : Teardown)
    (c : Client) (cn : ClientConn) :
  DialContext net (target c) = inl cn ->
  some_stream_fails net c ->
  exists k e,
    first_failure net (key c) k e /\
    Close env (after (Connect net c)) =
      (map (closed_send env) (before k), Panic NilDereference) /\
    conn_closed (fst (Close env (after (Connect net c)))) = false /\
    conn (after (Connect net c)) = Some cn.
Proof.
  intros Hdial Hfail. unfold Connect. rewrite Hdial. cbn.
  unfold some_stream_fails in Hfail.
  destruct (open_SendTransaction net (key c)) as [s1|e1] eqn:H1;
  [destruct (open_SendRawTransaction net (key c)) as [s2|e2] eqn:H2;
   [destruct (open_SendTransactionSequence net (key c)) as [s3|e3] eqn:H3;
    [destruct (open_SendRawTransactionSequence net (key c)) as [s4|e4] eqn:H4
    |]|]|].
  - exfalso. destruct Hfail as [[e H]|[[e H]|[[e H]|[e H]]]]; congruence.
  - exists RawTxSeqClass, e4. split; [|repeat split].
    unfold first_failure, open_error. rewrite H4. split; [reflexivity|].
    intros j Hj. cbn in Hj.
    repeat (destruct Hj as [<- | Hj]); try contradiction;
      cbn; now rewrite ?H1, ?H2, ?H3.
  - exists TxSeqClass, e3. split; [|repeat split].
    unfold first_failure, open_error. rewrite H3. split; [reflexivity|].
    intros j Hj. cbn in Hj.
    repeat (destruct Hj as [<- | Hj]); try contradiction;
      cbn; now rewrite ?H1, ?H2.
  - exists RawTxClass, e2. split; [|repeat split].
    unfold first_failure, open_error. rewrite H2. split; [reflexivity|].
    intros j Hj. cbn in Hj.
    repeat (destruct Hj as [<- | Hj]); try contradiction;
      cbn; now rewrite ?H1.
  - exists TxClass, e1. split; [|repeat split].
    unfold first_failure, open_error. rewrite H1. split; [reflexivity|].
    intros j Hj. cbn in Hj. contradiction.
Qed.

(** On the transport whose third stream fails to open. *)
Lemma Close_after_failed_Connect_witness :
  exists k e,
    first_failure third_stream_fails (key fresh_client) k e /\
    Close send_halves_fail (after (Connect third_stream_fails fresh_client))
      = (map (closed_send send_halves_fail) (before k),
         Panic NilDereference) /\
    conn_closed
      (fst (Close send_halves_fail
              (after (Connect third_stream_fails fresh_client)))) = false /\
    conn (after (Connect third_stream_fails fresh_client))
      = Some {| conn_target := target fresh_client |}.
Proof.
  exact (Close_after_failed_Connect third_stream_fails send_halves_fail
           fresh_client _ eq_refl
           (or_intror (or_intror (or_introl
              (ex_intro _ (Status 14) eq_refl))))).
Defined.

End ConnectionMore.

(** ** Subscriptions, further *)

Module SubscriptionMore.
Import Go Codec ClientModel Subscription SubscriptionSpecMore.
Import SubscriptionFacts Samples SubscriptionSamples.

Section PumpMore.
Context {Proto Event : Type}.
Variable decode : Proto -> Event.
Variable res : ServerStream Proto.
Variable ready : nat -> bool.

Local Abbreviation pump := (pump decode res ready).

(** The loop pushes the messages it reads, in order, and nothing else. *)
Lemma pump_in_order fuel :
  forall i log,
  exists k,
    (k <= fuel)%nat /\
    (forall j, (j < k)%nat ->
       exists m, recv res (i + j) = inl m /\ ready (i + j) = true) /\
    snd (pump fuel i log) =
      log ++ deliveries_from decode res i k ++
      match fst (pump fuel i log) with
      | Returned _ => [ChClose]
      | _ => []
      end.
Proof.
  induction fuel as [|fuel IH]; intros i log; cbn [Subscription.pump].
  - exists 0%nat. cbn. split; [lia|]. split; [lia|]. now rewrite app_nil_r.
  - destruct (recv res i) as [m|e] eqn:Hr.
    + destruct (ready i) eqn:Hready.
      * destruct (IH (S i) (log ++ [ChSend (decode m)]))
          as (k & Hk & Hmsgs & Hlog).
        exists (S k). split; [lia|]. split.
        -- intros [|j] Hj.
           ++ rewrite Nat.add_0_r. eauto.
           ++ rewrite Nat.add_succ_r. apply Hmsgs. lia.
        -- rewrite Hlog, (deliveries_from_step decode res i k m Hr).
           now rewrite <- app_assoc.
      * exists 0%nat. cbn. split; [lia|]. split; [lia|].
        now rewrite app_nil_r.
    + exists 0%nat. cbn. split; [lia|]. split; [lia|reflexivity].
Qed.

(** A push without a receiver stops the loop for good. *)
Lemma pump_stalls n :
  forall i log fuel,
    (forall j, (j <= n)%nat -> exists m, recv res (i + j) = inl m) ->
    (forall j, (j < n)%nat -> ready (i + j) = true) ->
    ready (i + n) = false ->
    (n < fuel)%nat ->
    pump fuel i log = (BlockedOnPush, log ++ deliveries_from decode res i n).
Proof.
  induction n as [|n IH]; intros i log fuel Hmsgs Hready Hstop Hfuel;
    (destruct fuel as [|fuel]; [lia|]); cbn [Subscription.pump];
    destruct (Hmsgs 0%nat ltac:(lia)) as [m Hm];
    rewrite Nat.add_0_r in Hm; rewrite Hm.
  - rewrite Nat.add_0_r in Hstop. rewrite Hstop. cbn. now rewrite app_nil_r.
  - pose proof (Hready 0%nat ltac:(lia)) as Hr0.
    rewrite Nat.add_0_r in Hr0. rewrite Hr0.
    rewrite (IH (S i) _ fuel).
    + rewrite (deliveries_from_step decode res i n m Hm).
      now rewrite <- app_assoc.
    + intros j Hj. specialize (Hmsgs (S j) ltac:(lia)).
      now rewrite Nat.add_succ_r in Hmsgs.
    + intros j Hj. specialize (Hready (S j) ltac:(lia)).
      now rewrite Nat.add_succ_r in Hready.
    + now rewrite Nat.add_succ_r in Hstop.
    + lia.
Qed.
End PumpMore.

Lemma subscribe_in_order {Proto Event} (decode : Proto -> Event)
    (label : string) (opened : ServerStream Proto + error) :
  in_arrival_order decode opened (subscribe decode label opened).
Proof.
  unfold in_arrival_order, subscribe. destruct opened as [res|e]; [|exact I].
  intros ready fuel.
  destruct (pump_in_order decode res ready fuel 0 []) as (k & Hk & Hmsgs & Hlog).
  exists k. split; [exact Hk|]. split; [exact Hmsgs|exact Hlog].
Qed.

Lemma subscribe_stalls {Proto Event} (decode : Proto -> Event)
    (label : string) (opened : ServerStream Proto + error) :
  stalls_without_receiver decode opened (subscribe decode label opened).
Proof.
  unfold stalls_without_receiver, subscribe.
  destruct opened as [res|e]; [|exact I].
  intros ready n Hmsgs Hready Hstop fuel Hfuel.
  rewrite (pump_stalls decode res ready n 0 [] fuel Hmsgs Hready Hstop Hfuel).
  split; [reflexivity|]. cbn [snd app].
  apply deliveries_from_all_sends.
Qed.

(** For each of the four subscription kinds, on a client with its stub
    and a stream that opened: at every moment the delivery channel has
    seen exactly the first messages of the stream, decoded, each once
    and in arrival order, with a close after them once the call has
    returned; no message is skipped, repeated or reordered. *)
Theorem subscription_delivers_in_arrival_order
    (Filter TxEvent HeaderMsg Header PayloadMsg Payload BeaconMsg
       BeaconBlock : Type)
    (Filter_Encode : Filter -> bytes)
    (ProtoToTx : eth.Transaction -> TxEvent)
    (ProtoToHeader : HeaderMsg -> Header)
    (ProtoToBlock : PayloadMsg -> Payload)
    (ProtoToBeaconBlock : BeaconMsg -> BeaconBlock)
    (rpc_txs : APIClient -> string -> api.TxFilter ->
               ServerStream eth.Transaction + error)
    (rpc_headers : APIClient -> string -> ServerStream HeaderMsg + error)
    (rpc_payloads : APIClient -> string -> ServerStream PayloadMsg + error)
    (rpc_beacon : APIClient -> string -> ServerStream BeaconMsg + error)
    (c : Client) (stub : APIClient) (filter : option Filter) :
  client c = Some stub ->
  in_arrival_order ProtoToTx
    (rpc_txs stub (key c) (protoFilter_of Filter Filter_Encode filter))
    (SubscribeNewTxs Filter TxEvent Filter_Encode ProtoToTx rpc_txs
                     c filter) /\
  in_arrival_order ProtoToHeader (rpc_headers stub (key c))
    (SubscribeNewExecutionPayloadHeaders HeaderMsg Header ProtoToHeader
                                         rpc_headers c) /\
  in_arrival_order ProtoToBlock (rpc_payloads stub (key c))
    (SubscribeNewExecutionPayloads PayloadMsg Payload ProtoToBlock
                                   rpc_payloads c) /\
  in_arrival_order ProtoToBeaconBlock (rpc_beacon stub (key c))
    (SubscribeNewBeaconBlocks BeaconMsg BeaconBlock ProtoToBeaconBlock
                              rpc_beacon c).
Proof.
  intros Hstub.
  unfold SubscribeNewTxs, SubscribeNewExecutionPayloadHeaders,
    SubscribeNewExecutionPayloads, SubscribeNewBeaconBlocks, with_stub.
  cbv zeta. rewrite Hstub.
  repeat split; apply (subscribe_in_order _ _ _).
Qed.

(** After one iteration on the stream of two transactions. *)
Lemma subscription_delivers_in_arrival_order_witness :
  exists n,
    (n <= 1)%nat /\
    snd (SubscribeNewTxs unit _ (fun _ => []) Codec.ProtoToTx sample_rpc_txs
           subscribed_client None (fun _ => true) 1)
    = deliveries Codec.ProtoToTx two_then_eof n.
Proof.
  destruct (subscription_delivers_in_arrival_order
              unit _ Z Z Z Z Z Z (fun _ => []) Codec.ProtoToTx
              (fun z => z) (fun z => z) (fun z => z)
              sample_rpc_txs sample_rpc_failing sample_rpc_failing
              sample_rpc_failing subscribed_client _ None eq_refl)
    as (Htxs & _).
  destruct (Htxs (fun _ => true) 1%nat) as (n & Hn & _ & Hlog).
  exists n. split; [exact Hn|].
  rewrite Hlog. cbn. now rewrite app_nil_r.
Defined.

(** For each of the four subscription kinds there is no way out of a
    push that nobody receives: the call stays blocked on it, the earlier
    messages delivered, and the delivery channel is not closed, even
    when the stream has ended in the meantime. *)
Theorem subscription_stalls_without_receiver
    (Filter TxEvent HeaderMsg Header PayloadMsg Payload BeaconMsg
       BeaconBlock : Type)
    (Filter_Encode : Filter -> bytes)
    (ProtoToTx : eth.Transaction -> TxEvent)
    (ProtoToHeader : HeaderMsg -> Header)
    (ProtoToBlock : PayloadMsg -> Payload)
    (ProtoToBeaconBlock : BeaconMsg -> BeaconBlock)
    (rpc_txs : APIClient -> string -> api.TxFilter ->
               ServerStream eth.Transaction + error)
    (rpc_headers : APIClient -> string -> ServerStream HeaderMsg + error)
    (rpc_payloads : APIClient -> string -> ServerStream PayloadMsg + error)
    (rpc_beacon : APIClient -> string -> ServerStream BeaconMsg + error)
    (c : Client) (stub : APIClient) (filter : option Filter) :
  client c = Some stub ->
  stalls_without_receiver ProtoToTx
    (rpc_txs stub (key c) (protoFilter_of Filter Filter_Encode filter))
    (SubscribeNewTxs Filter TxEvent Filter_Encode ProtoToTx rpc_txs
                     c filter) /\
  stalls_without_receiver ProtoToHeader (rpc_headers stub (key c))
    (SubscribeNewExecutionPayloadHeaders HeaderMsg Header ProtoToHeader
                                         rpc_headers c) /\
  stalls_without_receiver ProtoToBlock (rpc_payloads stub (key c))
    (SubscribeNewExecutionPayloads PayloadMsg Payload ProtoToBlock
                                   rpc_payloads c) /\
  stalls_without_receiver ProtoToBeaconBlock (rpc_beacon stub (key c))
    (SubscribeNewBeaconBlocks BeaconMsg BeaconBlock ProtoToBeaconBlock
                              rpc_beacon c).
Proof.
  intros Hstub.
  unfold SubscribeNewTxs, SubscribeNewExecutionPayloadHeaders,
    SubscribeNewExecutionPayloads, SubscribeNewBeaconBlocks, with_stub.
  cbv zeta. rewrite Hstub.
  repeat split; apply (subscribe_stalls _ _ _).
Qed.

(** The receiver that takes one push, on the stream of two transactions
    then [io.EOF]: the call blocks on the second and never closes. *)
Lemma subscription_stalls_without_receiver_witness :
  SubscribeNewTxs unit _ (fun _ => []) Codec.ProtoToTx sample_rpc_txs
    subscribed_client None takes_one 10
  = (BlockedOnPush, deliveries Codec.ProtoToTx two_then_eof 1).
Proof.
  destruct (subscription_stalls_without_receiver
              unit _ Z Z Z Z Z Z (fun _ => []) Codec.ProtoToTx
              (fun z => z) (fun z => z) (fun z => z)
              sample_rpc_txs sample_rpc_failing sample_rpc_failing
              sample_rpc_failing subscribed_client _ None eq_refl)
    as (Htxs & _).
  apply (Htxs takes_one 1%nat).
  - intros [|[|j]] Hj; [eexists; reflexivity..|lia].
  - intros [|j] Hj; [reflexivity|lia].
  - reflexivity.
  - lia.
Defined.


End SubscriptionMore.

(** ** The first revision of the client *)

Module ClientGoFacts.
Import Go GoEth Codec CodecSpec ClientModel Subscription SubscriptionSpecMore.
Import ClientGo ClientGoSpec CodecFacts SubscriptionFacts SubscriptionMore.
Import Samples ClientGoSamples ClientGoSamples2.

Lemma stream_of_message {Proto} (pre post : list Proto) (m : Proto) e :
  recv (stream_of (pre ++ m :: post) e) (length pre) = inl m.
Proof.
  cbn. rewrite nth_error_app2 by lia. now rewrite Nat.sub_diag.
Qed.

Lemma stream_of_end {Proto} (msgs : list Proto) e :
  recv (stream_of msgs e) (length msgs) = inr e.
Proof.
  cbn. now rewrite (proj2 (nth_error_None msgs (length msgs)) (le_n _)).
Qed.

Lemma short_recipient_panics (proto : eth.Transaction) :
  0 < len (eth.To proto) < AddressLength ->
  ProtoToTx proto =
    Panic (SliceToArrayTooShort (len (eth.To proto)) AddressLength).
Proof.
  unfold ProtoToTx, slice_to_Address, AddressLength. cbv zeta.
  intros [Hpos Hshort].
  destruct (Z.ltb_spec 0 (len (eth.To proto))); [|lia].
  destruct (Z.ltb_spec (len (eth.To proto)) 20); [reflexivity|lia].
Qed.

Lemma recipient_converts_decodes (proto : eth.Transaction) :
  recipient_converts proto ->
  ProtoToTx proto = Return (decoded_or_nil proto) /\
  (decoded_or_nil proto = None <-> known_tag (eth.Type_ proto) = false).
Proof.
  intros H. unfold decoded_or_nil.
  destruct (ProtoToTx_returns proto H) as (r & -> & Hr). now split.
Qed.

Section LoopFacts.
Context {Proto Event : Type}.
Variable decode : Proto -> outcome Event.
Variable value : Proto -> Event.
Variable e : error.
Variable ready : nat -> bool.
Hypothesis always_ready : forall i, ready i = true.

(** Messages that decode are pushed in order up to the end of the
    stream, which closes the channel. *)
Lemma pump_decoding_to_end (msgs : list Proto) :
  forall pre log fuel,
    Forall (fun p => decode p = Return (value p)) msgs ->
    (length msgs < fuel)%nat ->
    pump_decoding decode (stream_of (pre ++ msgs) e) ready fuel
                  (length pre) log =
      (Returned e, log ++ map (fun p => ChSend (value p)) msgs ++ [ChClose]).
Proof.
  induction msgs as [|m ms IH]; intros pre log fuel Hok Hfuel;
    (destruct fuel as [|fuel]; [cbn in Hfuel; lia|]); cbn [pump_decoding].
  - rewrite app_nil_r, stream_of_end. reflexivity.
  - rewrite stream_of_message. inversion Hok as [|? ? Hm Hms]; subst.
    rewrite Hm, always_ready.
    replace (pre ++ m :: ms) with ((pre ++ [m]) ++ ms)
      by (now rewrite <- app_assoc).
    replace (S (length pre)) with (length (pre ++ [m]))
      by (rewrite length_app; cbn; lia).
    rewrite (IH (pre ++ [m]) _ fuel Hms) by (cbn in Hfuel; lia).
    cbn [map]. now rewrite <- app_assoc.
Qed.

(** The first message that makes the decoder panic ends the loop there,
    before any push for it and without a close. *)
Lemma pump_decoding_to_panic (good : list Proto) :
  forall pre log fuel bad rest pn,
    Forall (fun p => decode p = Return (value p)) good ->
    decode bad = Panic pn ->
    (length good < fuel)%nat ->
    pump_decoding decode (stream_of (pre ++ good ++ bad :: rest) e) ready fuel
                  (length pre) log =
      (Panicked pn, log ++ map (fun p => ChSend (value p)) good).
Proof.
  induction good as [|m ms IH]; intros pre log fuel bad rest pn Hok Hbad Hfuel;
    (destruct fuel as [|fuel]; [cbn in Hfuel; lia|]); cbn [pump_decoding].
  - cbn [app]. rewrite stream_of_message, Hbad. cbn. now rewrite app_nil_r.
  - cbn [app]. rewrite stream_of_message.
    inversion Hok as [|? ? Hm Hms]; subst.
    rewrite Hm, always_ready.
    replace (pre ++ m :: ms ++ bad :: rest)
      with ((pre ++ [m]) ++ ms ++ bad :: rest)
      by (now rewrite <- app_assoc).
    replace (S (length pre)) with (length (pre ++ [m]))
      by (rewrite length_app; cbn; lia).
    rewrite (IH (pre ++ [m]) _ fuel bad rest pn Hms Hbad)
      by (cbn in Hfuel; lia).
    cbn [map]. now rewrite <- app_assoc.
Qed.
End LoopFacts.

(** A decoder that never panics makes this loop the loop of the later
    revision. *)
Lemma pump_decoding_total {Proto Event} (f : Proto -> Event)
    (res : ServerStream Proto) (ready : nat -> bool) (fuel : nat) :
  forall i log,
    pump_decoding (fun p => Return (f p)) res ready fuel i log =
    pump f res ready fuel i log.
Proof.
  induction fuel as [|fuel IH]; intros i log; cbn; [reflexivity|].
  destruct (recv res i); [|reflexivity].
  destruct (ready i); [apply IH|reflexivity].
Qed.

Lemma count_close_sends {A Event} (f : A -> Event) (l : list A) :
  count_close (map (fun p => ChSend (f p)) l) = 0%nat.
Proof. induction l as [|a l IH]; [reflexivity|exact IH]. Qed.

Lemma Forall_decodes (msgs : list eth.Transaction) :
  Forall recipient_converts msgs ->
  Forall (fun p => ProtoToTx p = Return (decoded_or_nil p)) msgs.
Proof.
  intros H. eapply Forall_impl; [|exact H].
  intros p Hp. exact (proj1 (recipient_converts_decodes p Hp)).
Qed.

(** [SubscribeNewTxs] of [client.go] pushes one value per message, in
    order, and that value is [nil] for every message whose type tag is
    not 0, 1 or 2: on a stream of messages whose recipient fields convert,
    with a receiver for every push, it pushes the decoded pointers, closes
    the channel at the end of the stream and returns the stream's error;
    a pushed pointer is [nil] exactly for an unknown tag. *)
Theorem SubscribeNewTxs_pushes_nil_for_unknown_type
    (rpc : APIClient -> option api.TxFilter ->
           ServerStream eth.Transaction + error)
    (c : ClientGo.Client) (stub : APIClient) (filter : option api.TxFilter)
    (msgs : list eth.Transaction) (e : error)
    (ready : nat -> bool) (fuel : nat) :
  ClientGo.client c = Some stub ->
  rpc stub filter = inl (stream_of msgs e) ->
  Forall recipient_converts msgs ->
  (forall i, ready i = true) ->
  (length msgs < fuel)%nat ->
  SubscribeNewTxs rpc c filter ready fuel =
    (Returned e, map (fun p => ChSend (decoded_or_nil p)) msgs ++ [ChClose]) /\
  (forall p, In p msgs ->
     (decoded_or_nil p = None <-> known_tag (eth.Type_ p) = false)).
Proof.
  intros Hstub Hrpc Hok Hready Hfuel. split.
  - unfold SubscribeNewTxs, subscribe_decoding. rewrite Hstub, Hrpc.
    exact (pump_decoding_to_end ProtoToTx decoded_or_nil e ready Hready
             msgs [] [] fuel (Forall_decodes msgs Hok) Hfuel).
  - intros p Hp. rewrite Forall_forall in Hok.
    exact (proj2 (recipient_converts_decodes p (Hok p Hp))).
Qed.

(** A legacy message, then one of type 7: a transaction, then [nil]. *)
Lemma SubscribeNewTxs_pushes_nil_for_unknown_type_witness :
  exists tx,
    SubscribeNewTxs
      (rpc_yielding [empty_recipient_wire 0; empty_recipient_wire 7])
      connected_v1 None (fun _ => true) 3
    = (Returned EOF, [ChSend (Some tx); ChSend None; ChClose]).
Proof.
  eexists.
  rewrite (proj1 (SubscribeNewTxs_pushes_nil_for_unknown_type
             (rpc_yielding [empty_recipient_wire 0; empty_recipient_wire 7])
             connected_v1 _ None
             [empty_recipient_wire 0; empty_recipient_wire 7] EOF
             (fun _ => true) 3 eq_refl eq_refl
             ltac:(repeat constructor) (fun _ => eq_refl)
             ltac:(cbn; lia))).
  reflexivity.
Defined.

(** [SubscribeNewTxs] of [client.go] panics on the first message whose
    recipient field has 1 to 19 bytes: the messages before it have been
    pushed, nothing is pushed for it or after it, and the delivery
    channel is left open. *)
Theorem SubscribeNewTxs_panics_on_short_recipient
    (rpc : APIClient -> option api.TxFilter ->
           ServerStream eth.Transaction + error)
    (c : ClientGo.Client) (stub : APIClient) (filter : option api.TxFilter)
    (good : list eth.Transaction) (bad : eth.Transaction)
    (rest : list eth.Transaction) (e : error)
    (ready : nat -> bool) (fuel : nat) :
  ClientGo.client c = Some stub ->
  rpc stub filter = inl (stream_of (good ++ bad :: rest) e) ->
  Forall recipient_converts good ->
  0 < len (eth.To bad) < AddressLength ->
  (forall i, ready i = true) ->
  (length good < fuel)%nat ->
  SubscribeNewTxs rpc c filter ready fuel =
    (Panicked (SliceToArrayTooShort (len (eth.To bad)) AddressLength),
     map (fun p => ChSend (decoded_or_nil p)) good) /\
  count_close (snd (SubscribeNewTxs rpc c filter ready fuel)) = 0%nat.
Proof.
  intros Hstub Hrpc Hok Hbad Hready Hfuel.
  assert (Hrun : SubscribeNewTxs rpc c filter ready fuel =
    (Panicked (SliceToArrayTooShort (len (eth.To bad)) AddressLength),
     map (fun p => ChSend (decoded_or_nil p)) good)).
  { unfold SubscribeNewTxs, subscribe_decoding. rewrite Hstub, Hrpc.
    exact (pump_decoding_to_panic ProtoToTx decoded_or_nil e ready Hready
             good [] [] fuel bad rest _ (Forall_decodes good Hok)
             (short_recipient_panics bad Hbad) Hfuel). }
  split; [exact Hrun|]. rewrite Hrun. cbn [snd]. apply count_close_sends.
Qed.

(** A legacy message, a one-byte recipient, a third message. *)
Lemma SubscribeNewTxs_panics_on_short_recipient_witness :
  SubscribeNewTxs
    (rpc_yielding [empty_recipient_wire 0; short_recipient_wire;
                   empty_recipient_wire 1])
    connected_v1 None (fun _ => true) 5
  = (Panicked (SliceToArrayTooShort 1 20),
     [ChSend (decoded_or_nil (empty_recipient_wire 0))]).
Proof.
  exact (proj1 (SubscribeNewTxs_panics_on_short_recipient
           (rpc_yielding [empty_recipient_wire 0; short_recipient_wire;
                          empty_recipient_wire 1])
           connected_v1 _ None
           [empty_recipient_wire 0] short_recipient_wire
           [empty_recipient_wire 1] EOF (fun _ => true) 5
           eq_refl eq_refl ltac:(repeat constructor)
           (conj eq_refl eq_refl) (fun _ => eq_refl) ltac:(cbn; lia))).
Defined.

Lemma channel_lifecycle_ext {Proto Event} (decode : Proto -> Event)
    (label : string) (opened : ServerStream Proto + error)
    (run run' : (nat -> bool) -> nat -> status * list (chan_op Event)) :
  (forall ready fuel, run ready fuel = run' ready fuel) ->
  channel_lifecycle decode label opened run ->
  channel_lifecycle decode label opened run'.
Proof.
  intros Hext. unfold channel_lifecycle. destruct opened as [res|e].
  - intros [Hsafe Hlive]. split.
    + intros ready fuel. rewrite <- Hext. apply Hsafe.
    + intros ready n e Hend Hready fuel Hfuel. rewrite <- Hext.
      now apply Hlive.
  - intros H ready fuel. rewrite <- Hext. apply H.
Qed.

Lemma in_arrival_order_ext {Proto Event} (decode : Proto -> Event)
    (opened : ServerStream Proto + error)
    (run run' : (nat -> bool) -> nat -> status * list (chan_op Event)) :
  (forall ready fuel, run ready fuel = run' ready fuel) ->
  in_arrival_order decode opened run ->
  in_arrival_order decode opened run'.
Proof.
  intros Hext. unfold in_arrival_order. destruct opened as [res|e]; [|trivial].
  intros H ready fuel. rewrite <- Hext. apply H.
Qed.

(** [SubscribeNewBlocks] of [client.go], on a client with its stub: a
    failed streaming call returns the error wrapped as
    "subscribing to api" with the channel untouched; otherwise the
    channel receives the blocks as they came, each once and in arrival
    order, is closed exactly when the call returns, which is with the
    error that ended the stream, and is never written after. *)
Theorem SubscribeNewBlocks_channel_lifecycle {Block BlockFilter : Type}
    (rpc : APIClient -> option BlockFilter -> ServerStream Block + error)
    (c : ClientGo.Client) (stub : APIClient) (filter : option BlockFilter) :
  ClientGo.client c = Some stub ->
  channel_lifecycle (fun b : Block => b) "subscribing to api"
    (rpc stub filter) (SubscribeNewBlocks rpc c filter) /\
  in_arrival_order (fun b : Block => b) (rpc stub filter)
    (SubscribeNewBlocks rpc c filter).
Proof.
  intros Hstub.
  assert (Hrun : forall ready fuel,
    subscribe (fun b : Block => b) "subscribing to api" (rpc stub filter)
              ready fuel
    = SubscribeNewBlocks rpc c filter ready fuel).
  { intros ready fuel. unfold SubscribeNewBlocks, subscribe_decoding, subscribe.
    rewrite Hstub. destruct (rpc stub filter); [|reflexivity].
    symmetry. apply (pump_decoding_total (fun b : Block => b)). }
  split.
  - exact (channel_lifecycle_ext _ _ _ _ _ Hrun (subscribe_lifecycle _ _ _)).
  - exact (in_arrival_order_ext _ _ _ _ Hrun
             (subscribe_in_order _ "subscribing to api" _)).
Qed.

(** Two blocks then [io.EOF]. *)
Lemma SubscribeNewBlocks_channel_lifecycle_witness :
  SubscribeNewBlocks rpc_blocks connected_v1 None (fun _ => true) 3
  = (Returned EOF, [ChSend 1; ChSend 2; ChClose]).
Proof.
  destruct (SubscribeNewBlocks_channel_lifecycle rpc_blocks connected_v1 _
              None eq_refl) as [[_ Hlive] _].
  apply (Hlive (fun _ => true) 2%nat EOF).
  - split; [reflexivity|].
    intros [|[|i]] Hi; [eexists; reflexivity..|lia].
  - reflexivity.
  - lia.
Defined.

(** The unary operations of [client.go], on a client with its stub.
    An operation returns exactly when the encoding fails or the request
    it makes is answered; when the request is never answered it never
    returns.  It does not panic.  A returned error comes with an empty
    hash and a zero timestamp, and its label tells the stage:
    "converting to protobuf" for an encoding failure, after which no
    request was made, and "sending tx to api" (or "sending backrun to
    api") for a failure of the one request made, which carried the
    encoding.  A result without error is the hash and timestamp of the
    response to that request. *)
Theorem unary_operations_outcomes Sender HashOf Hash_String
    (srv : UnaryServer) (c : ClientGo.Client) (stub : APIClient)
    (hash : bytes) (tx : GoEth.Transaction) :
  ClientGo.client c = Some stub ->
  (match snd (SendTransaction Sender HashOf srv c tx) with
   | None =>
       exists proto,
         TxToProto Sender HashOf tx = inl proto /\
         rpc_SendTransaction srv proto = None /\
         fst (SendTransaction Sender HashOf srv c tx)
           = [CallSendTransaction proto]
   | Some (Panic _) => False
   | Some (Return (h, ts, Some w)) =>
       h = EmptyString /\ ts = 0 /\
       ((exists e, w = Wrapped "converting to protobuf" e /\
                   TxToProto Sender HashOf tx = inr e /\
                   fst (SendTransaction Sender HashOf srv c tx) = []) \/
        (exists e proto,
            w = Wrapped "sending tx to api" e /\
            TxToProto Sender HashOf tx = inl proto /\
            rpc_SendTransaction srv proto = Some (inr e) /\
            fst (SendTransaction Sender HashOf srv c tx)
              = [CallSendTransaction proto]))
   | Some (Return (h, ts, None)) =>
       exists proto res,
         TxToProto Sender HashOf tx = inl proto /\
         rpc_SendTransaction srv proto = Some (inl res) /\
         h = api.Hash res /\ ts = api.Timestamp res /\
         fst (SendTransaction Sender HashOf srv c tx)
           = [CallSendTransaction proto]
   end) /\
  (match snd (BackrunTransaction Sender HashOf Hash_String srv c hash tx) with
   | None =>
       exists proto,
         TxToProto Sender HashOf tx = inl proto /\
         rpc_Backrun srv {| Hash := Hash_String hash; Tx := proto |} = None /\
         fst (BackrunTransaction Sender HashOf Hash_String srv c hash tx)
           = [CallBackrun {| Hash := Hash_String hash; Tx := proto |}]
   | Some (Panic _) => False
   | Some (Return (h, ts, Some w)) =>
       h = EmptyString /\ ts = 0 /\
       ((exists e, w = Wrapped "converting to protobuf" e /\
                   TxToProto Sender HashOf tx = inr e /\
                   fst (BackrunTransaction Sender HashOf Hash_String
                          srv c hash tx) = []) \/
        (exists e proto,
            w = Wrapped "sending backrun to api" e /\
            TxToProto Sender HashOf tx = inl proto /\
            rpc_Backrun srv {| Hash := Hash_String hash; Tx := proto |}
              = Some (inr e) /\
            fst (BackrunTransaction Sender HashOf Hash_String srv c hash tx)
              = [CallBackrun {| Hash := Hash_String hash; Tx := proto |}]))
   | Some (Return (h, ts, None)) =>
       exists proto res,
         TxToProto Sender HashOf tx = inl proto /\
         rpc_Backrun srv {| Hash := Hash_String hash; Tx := proto |}
           = Some (inl res) /\
         h = api.Hash res /\ ts = api.Timestamp res /\
         fst (BackrunTransaction Sender HashOf Hash_String srv c hash tx)
           = [CallBackrun {| Hash := Hash_String hash; Tx := proto |}]
   end).
Proof.
  intros Hstub. unfold SendTransaction, BackrunTransaction. cbv zeta.
  rewrite Hstub.
  destruct (TxToProto Sender HashOf tx) as [proto|e].
  - split.
    + destruct (rpc_SendTransaction srv proto) as [[res|e]|] eqn:Hrpc; cbn.
      * exists proto, res. repeat split. exact Hrpc.
      * split; [reflexivity|]. split; [reflexivity|]. right.
        exists e, proto. repeat split. exact Hrpc.
      * exists proto. repeat split. exact Hrpc.
    + destruct (rpc_Backrun srv {| Hash := Hash_String hash; Tx := proto |})
        as [[res|e]|] eqn:Hrpc; cbn.
      * exists proto, res. repeat split. exact Hrpc.
      * split; [reflexivity|]. split; [reflexivity|]. right.
        exists e, proto. repeat split. exact Hrpc.
      * exists proto. repeat split. exact Hrpc.
  - split; cbn; (split; [reflexivity|]); (split; [reflexivity|]); left;
      exists e; repeat split.
Qed.

(** The transfer on the server that never answers: one request, no
    return. *)
Lemma unary_operations_outcomes_witness :
  exists proto,
    TxToProto sample_Sender sample_Hash legacy_transfer = inl proto /\
    rpc_SendTransaction unary_silent proto = None /\
    fst (SendTransaction sample_Sender sample_Hash unary_silent
           connected_v1 legacy_transfer)
      = [CallSendTransaction proto].
Proof.
  exact (proj1 (unary_operations_outcomes sample_Sender sample_Hash
                  sample_Hash_String unary_silent connected_v1 _ []
                  legacy_transfer eq_refl)).
Defined.

End ClientGoFacts.
